(** * RtmpEval: the instance lifecycle of [rtmp.go]

    A shallow embedding of package [fathomrtmp] (file [rtmp.go]): the
    package-level state ([status], [connections], the two mutexes, the
    wait group of [startServer]), the functions that act on it, and the
    goroutines of [startServer] as a labelled transition system.

    Everything the program obtains from outside (the result of an HTTP
    round trip, of [net.Dial], of decoding a request body, of
    [json.Marshal], of [server.Shutdown]) is an explicit argument. *)

From Stdlib Require Import ZArith.
From stdpp Require Import gmap strings list fin_maps pretty.

Local Open Scope Z_scope.

(** ** Constants and enumerations (rtmp.go, lines 19-79) *)

(** A Go [error], identified with its message. *)
Definition error : Type := string.

Definition kubeAPIURL : string := "http://localhost:8080".
Definition serverPort : string := "localhost:1935".
Definition instanceId : string := "7263a41b-0b0b-4643-8ed3-ae5c00fcc561".
Definition lifetimeTimeoutHours : Z := 6.
Definition usageTimeoutMinutes : Z := 15.

(** [time.Duration] counts nanoseconds. *)
Module time.
Definition Nanosecond : Z := 1.
Definition Second : Z := 1000000000.
Definition Minute : Z := 60 * Second.
Definition Hour : Z := 60 * Minute.
End time.

Definition KubeEndpointType : Type := string.

Module KubeEndpoint.
Definition UpdateStatus : KubeEndpointType := "/update-status".
Definition Notify : KubeEndpointType := "/notify".
Definition Complete : KubeEndpointType := "/complete".
End KubeEndpoint.

Module ShutdownReason.
Inductive t : Set := Usage | Lifetime.

Definition to_string (r : t) : string :=
  match r with
  | Usage => "usage"
  | Lifetime => "lifetime"
  end.

Global Instance eq_dec : EqDecision t.
Proof. solve_decision. Defined.
End ShutdownReason.

Abbreviation ShutdownReasonType := ShutdownReason.t.

Module InstanceStatus.
Inductive t : Set :=
| Inactive
| Starting
| Running
| ShutdownRequested
| ShuttingDown
| ShutdownFailed.

Definition to_string (s : t) : string :=
  match s with
  | Inactive => "Inactive"
  | Starting => "Starting"
  | Running => "Running"
  | ShutdownRequested => "ShutdownRequested"
  | ShuttingDown => "ShuttingDown"
  | ShutdownFailed => "ShutdownFailed"
  end.

Global Instance eq_dec : EqDecision t.
Proof. solve_decision. Defined.
End InstanceStatus.

Abbreviation instanceStatusType := InstanceStatus.t.

(** [Signal] is the empty struct. *)
Inductive Signal : Set := MkSignal.

(** ** Library values *)

(** [url.Values]: a map from a key to the list of its values. *)
Abbreviation url_Values := (gmap string (list string)).

Module Values.
(** [v.Add(key, value)] appends to the values of [key]. *)
Definition Add (key value : string) (v : url_Values) : url_Values :=
  <[key := default [] (v !! key) ++ [value]]> v.
End Values.

(** A parsed [*url.URL]: what [url.Parse] was given, and [RawQuery] before
    it is encoded. *)
Record URL : Type := MkURL {
  urlBase : string;
  RawQuery : url_Values
}.

(** A [net.Conn]; [RemoteAddr] stands for [conn.RemoteAddr().String()]. *)
Record Conn : Type := MkConn {
  LocalAddr : string;
  RemoteAddr : string
}.

Global Instance Conn_eq_dec : EqDecision Conn.
Proof. solve_decision. Defined.

Inductive Body : Type :=
| BodyNil
| BodyString (s : string)
| BodyBytes (b : list Byte.byte).

(** The calls a handler makes on its [http.ResponseWriter], oldest first. *)
Inductive WriterCall : Type :=
| HeaderSet (key value : string)
| WriteHeader (code : Z)
| Encode (body : Body)
| HttpError (msg : string) (code : Z).

Abbreviation ResponseWriter := (list WriterCall).

Module http.
Definition StatusOK : Z := 200.
Definition StatusBadRequest : Z := 400.
Definition StatusInternalServerError : Z := 500.
End http.

(** ** What the environment answers *)

(** Outcome of the three fallible calls of [SendRequest]. *)
Inductive RoundTrip : Type :=
| ParseError (e : error)
| NewRequestError (e : error)
| DoError (e : error)
| Response (StatusCode : Z) (Status : string).

(** Outcome of [json.NewDecoder(r.Body).Decode(&streamDetails)]. *)
Inductive DecodeResult : Type :=
| Decoded (UUID : string) (URL : string)
| DecodeError (e : error).

(** Outcome of [net.Dial("tcp", url)]. *)
Inductive DialResult : Type :=
| Dialed (conn : Conn)
| DialError (e : error).

(** Outcome of [json.Marshal]: the bytes ([nil] on failure) and the error. *)
Abbreviation MarshalResult := (list Byte.byte * option error)%type.

(** ** Observable effects *)

Inductive MutexId : Set := StatusMux | ConnectionsMux.

Global Instance MutexId_eq_dec : EqDecision MutexId.
Proof. solve_decision. Defined.

(** One constructor for each [logger] call of the file. *)
Inductive LogLine : Type :=
| LogErrorParsingURL (e : error)
| LogErrorCreatingRequest (e : error)
| LogErrorSendingRequest (e : error)
| LogRequestReturnedStatus (u : URL) (Status : string)
| LogAliveForHours (h : Z)
| LogNoNewConnection (m : Z)
| LogErrorUpdatingStatus (e : error)
| LogShuttingDownAndNotifying
| LogConfirmingStartup
| LogErrorMarshallingStatus (e : error)
| LogServerStarted (port : string)
| LogRequestingShutdown
| LogWaitingOnStreams (n : nat)
| LogShuttingDown
| LogServerShutdownFailed (e : error)
| LogServerExited
| LogErrorCallingConnectionComplete (e : error).

Inductive Event : Type :=
| EvLock (m : MutexId)
| EvUnlock (m : MutexId)
| EvLog (l : LogLine)
| EvDo (method : string) (u : URL)
| EvPost (url contentType : string) (payload : gmap string string).

(** ** Package-level state *)

Record World : Type := MkWorld {
  status : instanceStatusType;
  statusMux : bool;
  connections : gmap string Conn;
  connectionsMux : bool;
  wg : Z;
  trace : list Event
}.

Definition held (m : MutexId) (w : World) : bool :=
  match m with
  | StatusMux => statusMux w
  | ConnectionsMux => connectionsMux w
  end.

Definition set_held (m : MutexId) (b : bool) (w : World) : World :=
  match m with
  | StatusMux =>
      MkWorld (status w) b (connections w) (connectionsMux w) (wg w) (trace w)
  | ConnectionsMux =>
      MkWorld (status w) (statusMux w) (connections w) b (wg w) (trace w)
  end.

Definition set_status (s : instanceStatusType) (w : World) : World :=
  MkWorld s (statusMux w) (connections w) (connectionsMux w) (wg w) (trace w).

Definition set_connections (c : gmap string Conn) (w : World) : World :=
  MkWorld (status w) (statusMux w) c (connectionsMux w) (wg w) (trace w).

Definition set_wg (n : Z) (w : World) : World :=
  MkWorld (status w) (statusMux w) (connections w) (connectionsMux w) n (trace w).

Definition record (e : Event) (w : World) : World :=
  MkWorld (status w) (statusMux w) (connections w) (connectionsMux w) (wg w)
          (trace w ++ [e]).

(** The state when the package has been initialised. *)
Definition initialWorld : World :=
  MkWorld InstanceStatus.Inactive false ∅ false 0 [].

(** ** The monad of the package's functions

    A call returns, or cannot go on because a mutex it wants is held, or
    panics. *)

Inductive Outcome (A : Type) : Type :=
| Done (a : A) (w : World)
| Blocked
| Panicked (msg : string).

Arguments Done {A} a w.
Arguments Blocked {A}.
Arguments Panicked {A} msg.

Definition M (A : Type) : Type := World → Outcome A.

Definition ret {A} (a : A) : M A := λ w, Done a w.

Definition bind {A B} (m : M A) (k : A → M B) : M B :=
  λ w, match m w with
       | Done a w' => k a w'
       | Blocked => Blocked
       | Panicked msg => Panicked msg
       end.

Declare Scope go_scope.
Delimit Scope go_scope with go.
Notation "x <- m ;; k" := (bind m (λ x, k))
  (at level 100, m at next level, right associativity) : go_scope.
Notation "m ;; k" := (bind m (λ _, k))
  (at level 100, right associativity) : go_scope.
Local Open Scope go_scope.

Definition get {A} (f : World → A) : M A := λ w, Done (f w) w.
Definition modify (f : World → World) : M unit := λ w, Done tt (f w).
Definition emit (e : Event) : M unit := modify (record e).
Definition logger (l : LogLine) : M unit := emit (EvLog l).

(** [m.Lock()] *)
Definition Lock (m : MutexId) : M unit :=
  λ w, if held m w then Blocked
       else Done tt (record (EvLock m) (set_held m true w)).

(** [m.Unlock()] *)
Definition Unlock (m : MutexId) : M unit :=
  λ w, if held m w then Done tt (record (EvUnlock m) (set_held m false w))
       else Panicked "sync: unlock of unlocked mutex".

(** [wg.Add(delta)]. Of the panics of [sync.WaitGroup] the one for a
    negative counter is modelled. The ones for an [Add] that runs while a
    [Wait] is being released are not: the model has the counter only, not
    the waiters. *)
Definition wg_Add (delta : Z) : M unit :=
  λ w, if decide (wg w + delta < 0)
       then Panicked "sync: negative WaitGroup counter"
       else Done tt (set_wg (wg w + delta) w).

(** [wg.Done()] *)
Definition wg_Done : M unit := wg_Add (-1).

(** [wg.Wait()]: returns when the counter is zero and cannot go on
    otherwise. The panic for a wait group that is used again before a
    released [Wait] has returned is not modelled. *)
Definition wg_Wait : M unit :=
  λ w, if decide (wg w = 0) then Done tt w else Blocked.

(** ** Functions of rtmp.go *)

(** [SendRequest] (lines 100-130). *)
Definition SendRequest (rt : RoundTrip) (req : KubeEndpointType)
    (params : url_Values) : M (option error) :=
  let u := MkURL (kubeAPIURL +:+ req) params in
  match rt with
  | ParseError e =>
      logger (LogErrorParsingURL e) ;; ret (Some e)
  | NewRequestError e =>
      logger (LogErrorCreatingRequest e) ;; ret (Some e)
  | DoError e =>
      emit (EvDo "POST" u) ;;
      logger (LogErrorSendingRequest e) ;; ret (Some e)
  | Response StatusCode Status =>
      emit (EvDo "POST" u) ;;
      (if decide (StatusCode ≠ http.StatusOK)
       then logger (LogRequestReturnedStatus u Status)
       else ret tt) ;;
      ret None
  end.

(** [notifyKubernetes] (lines 134-142); both results are dropped. *)
Definition notifyKubernetes (reason message : string) : M unit :=
  let url := kubeAPIURL +:+ KubeEndpoint.Notify in
  let payload : gmap string string :=
    <["message" := message]> (<["reason" := reason]> ∅) in
  emit (EvPost url "application/json" payload).

(** [updateStatusAndSendRequest] (lines 170-183); [params] may be [nil]. *)
Definition updateStatusAndSendRequest (rt : RoundTrip)
    (newStatus : instanceStatusType) (params : option url_Values)
    : M (option error) :=
  Lock StatusMux ;;
  modify (set_status newStatus) ;;
  let params := default ∅ params in
  let params := Values.Add "status" (InstanceStatus.to_string newStatus) params in
  err <- SendRequest rt KubeEndpoint.UpdateStatus params ;;
  match err with
  | Some e => logger (LogErrorUpdatingStatus e)
  | None => ret tt
  end ;;
  Unlock StatusMux ;;
  ret err.

(** [requestShutdown] (lines 186-191). *)
Definition requestShutdown (rt : RoundTrip) (reason : ShutdownReasonType)
    : M (option error) :=
  let params := Values.Add "reason" (ShutdownReason.to_string reason) ∅ in
  updateStatusAndSendRequest rt InstanceStatus.ShutdownRequested (Some params).

(** [connectionComplete] (lines 194-198). *)
Definition connectionComplete (rt : RoundTrip) (uuid : string)
    : M (option error) :=
  let params := Values.Add "uuid" uuid ∅ in
  SendRequest rt KubeEndpoint.Complete params.

(** [confirmShutdown] (lines 201-204). *)
Definition confirmShutdown (rt : RoundTrip) : M (option error) :=
  logger LogShuttingDownAndNotifying ;;
  updateStatusAndSendRequest rt InstanceStatus.ShuttingDown None.

(** [confirmStartup] (lines 207-210). *)
Definition confirmStartup (rt : RoundTrip) : M (option error) :=
  logger LogConfirmingStartup ;;
  updateStatusAndSendRequest rt InstanceStatus.Running None.

(** The string of the escape [\n]. *)
Definition newline : string := String (Ascii.ascii_of_nat 10) EmptyString.

(** [sendResponse] (lines 213-217). *)
Definition sendResponse (w : ResponseWriter) (status : Z) (body : Body)
    : ResponseWriter :=
  w ++ [HeaderSet "Content-Type" "application/json";
        WriteHeader status;
        Encode body].

(** [http.Error(w, msg, code)] *)
Definition http_Error (w : ResponseWriter) (msg : string) (code : Z)
    : ResponseWriter :=
  w ++ [HttpError msg code].

(** [getStatus] (lines 220-234). *)
Definition getStatus
    (json_Marshal : gmap string string → MarshalResult)
    (w : ResponseWriter) : M ResponseWriter :=
  Lock StatusMux ;;
  st <- get status ;;
  conns <- get connections ;;
  let payload : gmap string string :=
    <["streams" := pretty (size conns)]>
      (<["status" := InstanceStatus.to_string st]> ∅) in
  Unlock StatusMux ;;
  let '(jsonPayload, err) := json_Marshal payload in
  w <- match err with
       | Some e =>
           logger (LogErrorMarshallingStatus e) ;;
           ret (sendResponse w http.StatusInternalServerError
                  (BodyString
                     ("Error marshalling status into JSON: " +:+ e +:+ newline)))
       | None => ret w
       end ;;
  ret (sendResponse w http.StatusOK (BodyBytes jsonPayload)).

(** [handleNewStream], lines 300-327: the part run under [connectionsMux].
    Returns the writer and, when the stream was registered, what the rest
    of the handler keeps: [streamDetails.UUID] and [conn]. *)
Definition handleNewStream_register (body : DecodeResult)
    (net_Dial : string → DialResult) (w : ResponseWriter)
    : M (ResponseWriter * option (string * Conn)) :=
  Lock ConnectionsMux ;;
  match body with
  | DecodeError _ =>
      let w := http_Error w "Invalid request body" http.StatusBadRequest in
      Unlock ConnectionsMux ;;
      ret (w, None)
  | Decoded UUID URL =>
      match net_Dial URL with
      | DialError _ =>
          let w := http_Error w "Unable to connect to stream"
                     http.StatusInternalServerError in
          Unlock ConnectionsMux ;;
          ret (w, None)
      | Dialed conn =>
          modify (λ s, set_connections (<[UUID := conn]> (connections s)) s) ;;
          Unlock ConnectionsMux ;;
          ret (w, Some (UUID, conn))
      end
  end.

(** [handleNewStream], line 330. *)
Definition handleNewStream_respond (w : ResponseWriter) : ResponseWriter :=
  sendResponse w http.StatusOK BodyNil.

(** [handleNewStream] (lines 298-345) up to the [go] statement. The handler
    returns its writer and, when it started one, the captured variables of
    the goroutine it started. *)
Definition handleNewStream (body : DecodeResult)
    (net_Dial : string → DialResult) (w : ResponseWriter)
    : M (ResponseWriter * option (string * Conn)) :=
  r <- handleNewStream_register body net_Dial w ;;
  match r with
  | (w, None) => ret (w, None)
  | (w, Some (UUID, conn)) =>
      let w := handleNewStream_respond w in
      wg_Add 1 ;;
      ret (w, Some (UUID, conn))
  end.

(** The goroutine of [handleNewStream], lines 337-343: what it does once
    [HandleStream(conn)] has returned, before the deferred [wg.Done()]. *)
Definition handleNewStream_func1_complete (rt : RoundTrip) (UUID : string)
    (conn : Conn) : M unit :=
  Lock ConnectionsMux ;;
  modify (λ s, set_connections (delete (RemoteAddr conn) (connections s)) s) ;;
  err <- connectionComplete rt UUID ;;
  match err with
  | Some e => logger (LogErrorCallingConnectionComplete e)
  | None => ret tt
  end ;;
  Unlock ConnectionsMux.

(** The goroutine of [handleNewStream] (lines 334-344) from the return of
    [HandleStream] to its end. *)
Definition handleNewStream_func1 (rt : RoundTrip) (UUID : string)
    (conn : Conn) : M unit :=
  handleNewStream_func1_complete rt UUID conn ;;
  wg_Done.

(** [startServer], lines 267-268. *)
Definition startServer_startup (rt : RoundTrip) : M unit :=
  logger (LogServerStarted serverPort) ;;
  confirmStartup rt ;;
  ret tt.

(** [startServer], lines 272-275, once [shutdownReason] has been received. *)
Definition startServer_request (rt : RoundTrip)
    (shutdownReason : ShutdownReasonType) : M unit :=
  logger LogRequestingShutdown ;;
  requestShutdown rt shutdownReason ;;
  ret tt.

(** [startServer], lines 276-280. *)
Definition startServer_count : M unit :=
  Lock ConnectionsMux ;;
  conns <- get connections ;;
  (if decide (0 < size conns)%nat
   then logger (LogWaitingOnStreams (size conns))
   else ret tt) ;;
  Unlock ConnectionsMux.

(** [startServer], lines 284-285. *)
Definition startServer_confirm (rt : RoundTrip) : M unit :=
  confirmShutdown rt ;;
  logger LogShuttingDown.

(** [startServer], lines 288-294; [shutdownErr] is what
    [server.Shutdown(ctx)] returned under its 5 second context. *)
Definition startServer_stop (shutdownErr : option error) : M unit :=
  match shutdownErr with
  | Some err =>
      logger (LogServerShutdownFailed err) ;;
      notifyKubernetes "Server Shutdown Failed" err
  | None => ret tt
  end ;;
  logger LogServerExited.

(** [startServer] from line 284 to its return, when [wg.Wait()] has
    returned. *)
Definition startServer_shutdown (rt : RoundTrip) (shutdownErr : option error)
    : M unit :=
  startServer_confirm rt ;;
  startServer_stop shutdownErr.

(** ** Channels, timers and goroutines *)

(** A channel made by [make(chan T, cap)]; [make(chan T)] has capacity 0. *)
Record Chan (A : Type) : Type := MkChan {
  cap : nat;
  buf : list A
}.

Arguments MkChan {A} cap buf.
Arguments cap {A} c.
Arguments buf {A} c.

Definition make_chan {A : Type} (n : nat) : Chan A := MkChan n [].

(** Where the goroutine running [startServer] stands. *)
Inductive CoordPc : Type :=
| CStartup
| CAwait
| CRequest (shutdownReason : ShutdownReasonType)
| CCount
| CDrain
| CConfirm
| CStop
| CExited.

(** Where the goroutine running [startLifetimeTimer] stands. *)
Inductive LifetimePc : Set :=
| LSleep
| LSend
| LDone.

(** Where the goroutine running [startUsageTimer] stands; [USelect] carries
    the instant at which [timer.C] becomes ready. *)
Inductive UsagePc : Type :=
| USelect (deadline : Z)
| USend
| UDone.

(** The two cases of the [select] of [startUsageTimer]. *)
Inductive SelectCase : Set :=
| CaseConnection
| CaseTimer.

(** A goroutine serving a [/stream] request, and the goroutine it starts. *)
Inductive Proc : Type :=
| HStart (body : DecodeResult) (w : ResponseWriter)
| HRegistered (UUID : string) (conn : Conn) (w : ResponseWriter)
| HResponded (UUID : string) (conn : Conn) (w : ResponseWriter)
| HReturned (w : ResponseWriter)
| TRunning (UUID : string) (conn : Conn) (since : Z)
| TCompleted (UUID : string) (conn : Conn)
| TExited.

Record State : Type := MkState {
  world : World;
  now : Z;
  coord : CoordPc;
  lifetimeTimer : LifetimePc;
  usageTimer : UsagePc;
  shutdownServer : Chan ShutdownReasonType;
  connectionChan : Chan Signal;
  procs : list Proc
}.

Definition set_world (w : World) (s : State) : State :=
  MkState w (now s) (coord s) (lifetimeTimer s) (usageTimer s)
          (shutdownServer s) (connectionChan s) (procs s).

Definition set_now (t : Z) (s : State) : State :=
  MkState (world s) t (coord s) (lifetimeTimer s) (usageTimer s)
          (shutdownServer s) (connectionChan s) (procs s).

Definition set_coord (c : CoordPc) (s : State) : State :=
  MkState (world s) (now s) c (lifetimeTimer s) (usageTimer s)
          (shutdownServer s) (connectionChan s) (procs s).

Definition set_lifetimeTimer (l : LifetimePc) (s : State) : State :=
  MkState (world s) (now s) (coord s) l (usageTimer s)
          (shutdownServer s) (connectionChan s) (procs s).

Definition set_usageTimer (u : UsagePc) (s : State) : State :=
  MkState (world s) (now s) (coord s) (lifetimeTimer s) u
          (shutdownServer s) (connectionChan s) (procs s).

Definition set_shutdownServer (c : Chan ShutdownReasonType) (s : State)
    : State :=
  MkState (world s) (now s) (coord s) (lifetimeTimer s) (usageTimer s)
          c (connectionChan s) (procs s).

Definition set_connectionChan (c : Chan Signal) (s : State) : State :=
  MkState (world s) (now s) (coord s) (lifetimeTimer s) (usageTimer s)
          (shutdownServer s) c (procs s).

Definition set_procs (ps : list Proc) (s : State) : State :=
  MkState (world s) (now s) (coord s) (lifetimeTimer s) (usageTimer s)
          (shutdownServer s) (connectionChan s) ps.

(** [startServer] at line 247: both channels made without a capacity, both
    timers started, the timer of [startUsageTimer] armed. Time is counted
    from here. *)
Definition initialState : State :=
  MkState initialWorld 0 CStartup LSleep
          (USelect (usageTimeoutMinutes * time.Minute))
          (make_chan 0) (make_chan 0) [].

(** Run a piece of code of one goroutine on the shared state. A piece that
    blocks cannot be taken; a piece that panics ends the process. A piece
    runs as one step, so a section from [Lock] to [Unlock] is atomic here:
    a goroutine that waits for a mutex is one whose step is not taken yet.
    Every call to the environment inside a piece returns; a call that
    never returns (the requests to the control plane and [net.Dial] have
    no timeout) is outside this model. *)
Definition perform {A : Type} (m : M A) (s : State) : option (A * State) :=
  match m (world s) with
  | Done a w => Some (a, set_world w s)
  | Blocked => None
  | Panicked _ => None
  end.

(** [shutdownChan <- r] by one of the timers: into the buffer when there is
    room, to the receiver of line 271 when it is waiting, blocked
    otherwise. *)
Definition send_shutdown (r : ShutdownReasonType) (s : State) : option State :=
  let c := shutdownServer s in
  if decide (length (buf c) < cap c)%nat
  then Some (set_shutdownServer (MkChan (cap c) (buf c ++ [r])) s)
  else match coord s, buf c with
       | CAwait, [] => Some (set_coord (CRequest r) s)
       | _, _ => None
       end.

(** What the environment answers to one step. *)
Record Env : Type := MkEnv {
  envRoundTrip : RoundTrip;
  envDial : string → DialResult;
  envShutdown : option error
}.

(** One step of [startServer] (lines 267-295). *)
Definition startServer_step (e : Env) (s : State) : option State :=
  match coord s with
  | CStartup =>
      '(_, s) ← perform (startServer_startup (envRoundTrip e)) s;
      Some (set_coord CAwait s)
  | CAwait =>
      match buf (shutdownServer s) with
      | r :: rest =>
          Some (set_coord (CRequest r)
                  (set_shutdownServer (MkChan (cap (shutdownServer s)) rest) s))
      | [] => None
      end
  | CRequest r =>
      '(_, s) ← perform (startServer_request (envRoundTrip e) r) s;
      Some (set_coord CCount s)
  | CCount =>
      '(_, s) ← perform startServer_count s;
      Some (set_coord CDrain s)
  | CDrain =>
      '(_, s) ← perform wg_Wait s;
      Some (set_coord CConfirm s)
  | CConfirm =>
      '(_, s) ← perform (startServer_confirm (envRoundTrip e)) s;
      Some (set_coord CStop s)
  | CStop =>
      '(_, s) ← perform (startServer_stop (envShutdown e)) s;
      Some (set_coord CExited s)
  | CExited => None
  end.

(** One step of [startLifetimeTimer] (lines 145-149). *)
Definition startLifetimeTimer_step (s : State) : option State :=
  match lifetimeTimer s with
  | LSleep =>
      if decide (lifetimeTimeoutHours * time.Hour ≤ now s)
      then '(_, s) ← perform (logger (LogAliveForHours lifetimeTimeoutHours)) s;
           Some (set_lifetimeTimer LSend s)
      else None
  | LSend =>
      s ← send_shutdown ShutdownReason.Lifetime s;
      Some (set_lifetimeTimer LDone s)
  | LDone => None
  end.

(** One step of [startUsageTimer] (lines 152-167). No statement of the
    file sends on [connectionChan], so its case is ready only when the
    channel holds a value. *)
Definition startUsageTimer_step (c : SelectCase) (s : State) : option State :=
  match usageTimer s with
  | USelect deadline =>
      match c with
      | CaseConnection =>
          match buf (connectionChan s) with
          | _ :: rest =>
              Some (set_usageTimer
                      (USelect (now s + usageTimeoutMinutes * time.Minute))
                      (set_connectionChan
                         (MkChan (cap (connectionChan s)) rest) s))
          | [] => None
          end
      | CaseTimer =>
          if decide (deadline ≤ now s)
          then Some (set_usageTimer USend s)
          else None
      end
  | USend =>
      s ← send_shutdown ShutdownReason.Usage s;
      '(_, s) ← perform (logger (LogNoNewConnection usageTimeoutMinutes)) s;
      Some (set_usageTimer UDone s)
  | UDone => None
  end.

(** One step of the [i]-th goroutine started for a request:
    [handleNewStream] (lines 298-345) and the goroutine it starts, in which
    [HandleStream] sleeps 3 seconds. *)
Definition handleNewStream_step (e : Env) (p : Proc) (s : State)
    : option (Proc * State) :=
  match p with
  | HStart body w =>
      '(r, s) ← perform (handleNewStream_register body (envDial e) w) s;
      match r with
      | (w, Some (UUID, conn)) => Some (HRegistered UUID conn w, s)
      | (w, None) => Some (HReturned w, s)
      end
  | HRegistered UUID conn w =>
      Some (HResponded UUID conn (handleNewStream_respond w), s)
  | HResponded UUID conn w =>
      '(_, s) ← perform (wg_Add 1) s;
      Some (TRunning UUID conn (now s), s)
  | HReturned _ => None
  | TRunning UUID conn since =>
      if decide (since + 3 * time.Second ≤ now s)
      then '(_, s) ← perform
             (handleNewStream_func1_complete (envRoundTrip e) UUID conn) s;
           Some (TCompleted UUID conn, s)
      else None
  | TCompleted UUID conn =>
      '(_, s) ← perform wg_Done s;
      Some (TExited, s)
  | TExited => None
  end.

(** What can happen next: time passes, one of the goroutines of
    [startServer] takes a step, the server accepts a request on [/stream]
    and starts [handleNewStream] for it, a goroutine started for a request
    takes a step, or the server serves a request on [/status]. *)
Inductive Action : Type :=
| Tick (d : Z)
| Coordinator (e : Env)
| LifetimeTimer
| UsageTimer (c : SelectCase)
| Request (body : DecodeResult)
| Goroutine (i : nat) (e : Env)
| StatusRequest (json_Marshal : gmap string string → MarshalResult).

(** The step an action stands for. *)
Definition dispatch (a : Action) (s : State) : option State :=
  match a with
  | Tick d =>
      if decide (0 < d) then Some (set_now (now s + d) s) else None
  | Coordinator e => startServer_step e s
  | LifetimeTimer => startLifetimeTimer_step s
  | UsageTimer c => startUsageTimer_step c s
  | Request body => Some (set_procs (procs s ++ [HStart body []]) s)
  | Goroutine i e =>
      p ← procs s !! i;
      '(p, s) ← handleNewStream_step e p s;
      Some (set_procs (<[i := p]> (procs s)) s)
  | StatusRequest json_Marshal =>
      '(_, s) ← perform (getStatus json_Marshal []) s;
      Some s
  end.

(** One step of the process. Nothing happens once [startServer] has
    returned: [Run] returns and the process ends. *)
Definition exec (a : Action) (s : State) : option State :=
  match coord s with
  | CExited => None
  | _ => dispatch a s
  end.

Fixpoint run (acts : list Action) (s : State) : option State :=
  match acts with
  | [] => Some s
  | a :: acts => s ← exec a s; run acts s
  end.

(** The states the process can be in. *)
Inductive Reachable : State → Prop :=
| Reachable_init : Reachable initialState
| Reachable_step a s s' : Reachable s → exec a s = Some s' → Reachable s'.

(** ** Notions used in the statements *)

(** The error of a round trip: what [SendRequest] returns on it. *)
Definition SendRequest_err (rt : RoundTrip) : option error :=
  match rt with
  | ParseError e | NewRequestError e | DoError e => Some e
  | Response _ _ => None
  end.

(** No goroutine is inside a critical section. *)
Definition locks_free (w : World) : Prop :=
  statusMux w = false ∧ connectionsMux w = false.

(** Started with both mutexes free, [m] returns with both mutexes free and
    has moved the counter of the wait group by [δ]. *)
Definition frames {A} (m : M A) (δ : Z) : Prop :=
  ∀ w a w', m w = Done a w' → locks_free w →
    locks_free w' ∧ wg w' = wg w + δ.

(** A goroutine of [handleNewStream] between its [wg.Add(1)] and its
    deferred [wg.Done()]. *)
Definition running (p : Proc) : bool :=
  match p with
  | TRunning _ _ _ | TCompleted _ _ => true
  | _ => false
  end.

(** How many such goroutines there are. *)
Fixpoint inflight (ps : list Proc) : nat :=
  match ps with
  | [] => 0
  | p :: ps => (if running p then 1 else 0) + inflight ps
  end%nat.

(** The receive of line 271 has been done. *)
Definition consumed (c : CoordPc) : bool :=
  match c with
  | CStartup | CAwait => false
  | _ => true
  end.

(** The reasons whose send has completed. *)
Definition delivered (s : State) : list ShutdownReasonType :=
  match lifetimeTimer s with
  | LDone => [ShutdownReason.Lifetime]
  | _ => []
  end ++
  match usageTimer s with
  | UDone => [ShutdownReason.Usage]
  | _ => []
  end.

(** What holds in every state of the process between two steps. *)
Record Inv (s : State) : Prop := MkInv {
  inv_locks : locks_free (world s);
  inv_shutdownServer : shutdownServer s = make_chan 0;
  inv_connectionChan : connectionChan s = make_chan 0;
  inv_wg : wg (world s) = Z.of_nat (inflight (procs s));
  inv_usage : ∀ d, usageTimer s = USelect d →
                   d = usageTimeoutMinutes * time.Minute;
  inv_delivered : if consumed (coord s)
                  then length (delivered s) = 1%nat
                  else delivered s = [];
  inv_reason : ∀ r, coord s = CRequest r → delivered s = [r]
}.

(** An environment in which every call succeeds: the control plane answers
    200, the target accepts the connection, the server stops in time. *)
Definition okEnv : Env :=
  MkEnv (Response 200 "200 OK")
        (λ url, Dialed (MkConn "127.0.0.1:50000" url))
        None.

(** Connections used in the examples. *)
Definition conn_a : Conn := MkConn "127.0.0.1:50000" "10.0.0.1:1935".

Definition conn_a' : Conn := MkConn "127.0.0.1:50001" "10.0.0.2:1935".

Definition conn_c : Conn := MkConn "127.0.0.1:50000" "10.0.0.3:1935".

(** The state in which [handleNewStream] leaves [w] when it has registered
    [conn] under [UUID] and counted its goroutine. *)
Definition registered (UUID : string) (conn : Conn) (w : World) : World :=
  set_wg (wg w + 1)
    (record (EvUnlock ConnectionsMux)
       (set_held ConnectionsMux false
          (set_connections (<[UUID := conn]> (connections w))
             (record (EvLock ConnectionsMux)
                (set_held ConnectionsMux true w))))).

(** The inactivity timer fires after 15 minutes and the coordinator sets
    [ShutdownRequested]. *)
Definition acts_shutdown_requested : list Action :=
  [Coordinator okEnv; Tick (15 * time.Minute);
   UsageTimer CaseTimer; UsageTimer CaseTimer; Coordinator okEnv].

(** A request for stream "c" is served up to its response. *)
Definition acts_late_request : list Action :=
  [Request (Decoded "c" "10.0.0.3:1935");
   Goroutine 0 okEnv; Goroutine 0 okEnv].

(** A registry that holds stream "a". *)
Definition world_with_a : World :=
  set_connections (<["a" := conn_a]> ∅) initialWorld.

(** The state when the wait of line 283 has returned at status
    [ShutdownRequested]. *)
Definition world_drained : World :=
  set_status InstanceStatus.ShutdownRequested initialWorld.

(** Stream "a" is being handled when the inactivity timer fires: the
    coordinator reaches the wait of line 283 with one goroutine counted. *)
Definition acts_drain_busy : list Action :=
  [Coordinator okEnv;
   Request (Decoded "a" "10.0.0.1:1935");
   Goroutine 0 okEnv; Goroutine 0 okEnv; Goroutine 0 okEnv;
   Tick (15 * time.Minute);
   UsageTimer CaseTimer; UsageTimer CaseTimer;
   Coordinator okEnv; Coordinator okEnv].

(** The state that run ends in. *)
Definition state_drain_busy : State :=
  default initialState (run acts_drain_busy initialState).

(** The inactivity timer fires when stream "a" has just been registered
    and its handler has not yet reached [wg.Add(1)]. *)
Definition acts_drain_early : list Action :=
  [Coordinator okEnv;
   Tick (15 * time.Minute);
   Request (Decoded "a" "10.0.0.1:1935");
   Goroutine 0 okEnv;
   UsageTimer CaseTimer; UsageTimer CaseTimer;
   Coordinator okEnv; Coordinator okEnv].

(** The inactivity timer fires on an idle instance and the wait of line
    283 returns. *)
Definition acts_drain_idle : list Action :=
  [Coordinator okEnv;
   Tick (15 * time.Minute);
   UsageTimer CaseTimer; UsageTimer CaseTimer;
   Coordinator okEnv; Coordinator okEnv; Coordinator okEnv].

(** The inactivity timer fires after 15 minutes and the coordinator
    receives its reason; six hours later [startLifetimeTimer] wakes up. *)
Definition acts_lifetime_loses : list Action :=
  [Coordinator okEnv; Tick (15 * time.Minute);
   UsageTimer CaseTimer; UsageTimer CaseTimer;
   Tick (6 * time.Hour); LifetimeTimer].

(** The state that run ends in. *)
Definition state_lifetime_loses : State :=
  default initialState (run acts_lifetime_loses initialState).

(** Stream "a" is registered 10 minutes after the start. *)
Definition acts_register_at_10 : list Action :=
  [Coordinator okEnv; Tick (10 * time.Minute);
   Request (Decoded "a" "10.0.0.1:1935");
   Goroutine 0 okEnv; Goroutine 0 okEnv; Goroutine 0 okEnv].

(** Five minutes later the timer fires and the coordinator handles the
    reason. *)
Definition acts_fire_at_15 : list Action :=
  [Tick (5 * time.Minute); UsageTimer CaseTimer; UsageTimer CaseTimer;
   Coordinator okEnv].

(** ** Notions used in the further properties *)

(** The state in which [handleNewStream] leaves [w] when it has rejected
    the request: the mutex was taken and released, nothing else. *)
Definition rejected (w : World) : World :=
  record (EvUnlock ConnectionsMux)
    (set_held ConnectionsMux false
       (record (EvLock ConnectionsMux) (set_held ConnectionsMux true w))).

(** The round trip reached [client.Do]. *)
Definition attempted (rt : RoundTrip) : bool :=
  match rt with
  | ParseError _ | NewRequestError _ => false
  | DoError _ | Response _ _ => true
  end.

(** The status that [startServer] has set when it stands at [c]. *)
Definition status_at (c : CoordPc) : instanceStatusType :=
  match c with
  | CStartup => InstanceStatus.Inactive
  | CAwait | CRequest _ => InstanceStatus.Running
  | CCount | CDrain | CConfirm => InstanceStatus.ShutdownRequested
  | CStop | CExited => InstanceStatus.ShuttingDown
  end.

(** The place of a status in the order in which the constants are
    declared. *)
Definition status_index (st : instanceStatusType) : nat :=
  match st with
  | InstanceStatus.Inactive => 0
  | InstanceStatus.Starting => 1
  | InstanceStatus.Running => 2
  | InstanceStatus.ShutdownRequested => 3
  | InstanceStatus.ShuttingDown => 4
  | InstanceStatus.ShutdownFailed => 5
  end%nat.

(** How far [startServer] has come. *)
Definition pc_index (c : CoordPc) : nat :=
  match c with
  | CStartup => 0
  | CAwait => 1
  | CRequest _ => 2
  | CCount => 3
  | CDrain => 4
  | CConfirm => 5
  | CStop => 6
  | CExited => 7
  end%nat.

(** The statement that follows [c] when the one at [c] has returned. *)
Definition next_pc (c : CoordPc) : CoordPc :=
  match c with
  | CStartup => CAwait
  | CAwait => CAwait
  | CRequest _ => CCount
  | CCount => CDrain
  | CDrain => CConfirm
  | CConfirm => CStop
  | CStop | CExited => CExited
  end.

(** [startServer] stands at a statement that can block (the receive, the
    wait) or has returned. *)
Definition waits (c : CoordPc) : bool :=
  match c with
  | CAwait | CDrain | CExited => true
  | _ => false
  end.

(** The calls of [http.Post] in a trace. *)
Definition posts (tr : list Event) : list Event :=
  List.filter (λ e, match e with EvPost _ _ _ => true | _ => false end) tr.

(** The mutex held after one more event, [None] when the event breaks the
    pairing: a [Lock] while a mutex is held, an [Unlock] of a mutex that is
    not the one held. *)
Definition lock_step (h : option (option MutexId)) (e : Event)
    : option (option MutexId) :=
  match h with
  | None => None
  | Some None =>
      match e with
      | EvLock m => Some (Some m)
      | EvUnlock _ => None
      | _ => Some None
      end
  | Some (Some m) =>
      match e with
      | EvLock _ => None
      | EvUnlock m' => if decide (m = m') then Some None else None
      | _ => Some (Some m)
      end
  end.

(** The mutex held at the end of a trace. *)
Definition holder (tr : list Event) : option (option MutexId) :=
  foldl lock_step (Some None) tr.

(** What a piece of code does: the status it leaves, and the events it
    adds to the trace, among which there is no call of [http.Post] and in
    which the mutex events are paired. *)
Definition effect {A} (m : M A) (st : option instanceStatusType) : Prop :=
  ∀ w a w', m w = Done a w' → locks_free w →
    status w' = default (status w) st
    ∧ ∃ evs, trace w' = trace w ++ evs
             ∧ posts evs = []
             ∧ holder evs = Some None.

(** Started with both mutexes free, [m] returns. *)
Definition proceeds {A} (m : M A) : Prop :=
  ∀ w, locks_free w → ∃ a w', m w = Done a w'.

(** A goroutine started for a request can take its next step at time [t]. *)
Definition ready (p : Proc) (t : Z) : bool :=
  match p with
  | HStart _ _ | HRegistered _ _ _ | HResponded _ _ _ | TCompleted _ _ => true
  | TRunning _ _ since => bool_decide (since + 3 * time.Second ≤ t)
  | HReturned _ | TExited => false
  end.

(** What holds of the status, the clock and the trace in every state of
    the process. *)
Record Inv2 (s : State) : Prop := MkInv2 {
  inv_status : status (world s) = status_at (coord s);
  inv_now : 0 ≤ now s;
  inv_lifetime : lifetimeTimer s ≠ LSleep →
                 lifetimeTimeoutHours * time.Hour ≤ now s;
  inv_usage_fired : (∀ d, usageTimer s ≠ USelect d) →
                    usageTimeoutMinutes * time.Minute ≤ now s;
  inv_posts : match coord s with
              | CExited =>
                  posts (trace (world s)) = []
                  ∨ ∃ err,
                      posts (trace (world s)) =
                        [EvPost "http://localhost:8080/notify"
                           "application/json"
                           (<["message" := err]>
                              (<["reason" := "Server Shutdown Failed"]> ∅))]
              | _ => posts (trace (world s)) = []
              end
}.

(** A connection whose remote address is also the id of its stream. *)
Definition conn_b : Conn := MkConn "127.0.0.1:50002" "10.0.0.4:1935".

(** The coordinator stands before [server.Shutdown]: the inactivity timer
    has fired on an idle instance, the wait of line 283 has returned and
    [confirmShutdown] has been called. *)
Definition state_stop : State :=
  default initialState
    (run (acts_drain_idle ++ [Coordinator okEnv]) initialState).

(** An environment in which every call fails: the control plane cannot be
    reached, no target accepts a connection, the server does not stop in
    time. *)
Definition failEnv : Env :=
  MkEnv (DoError "connection refused")
        (λ _, DialError "connection refused")
        (Some "context deadline exceeded").


(** The action is a step in which the environment gives the answers [e],
    or a step that asks the environment nothing; it is not the arrival of
    a request. *)
Definition uses (e : Env) (a : Action) : Prop :=
  match a with
  | Tick _ | LifetimeTimer | UsageTimer _ => True
  | Coordinator e' | Goroutine _ e' => e' = e
  | Request _ | StatusRequest _ => False
  end.

(** There is a run from [s] to [s'] in which no request arrives and the
    environment gives the answers [e] throughout. *)
Definition leads (e : Env) (s s' : State) : Prop :=
  ∃ acts, run acts s = Some s' ∧ Forall (uses e) acts.

(** [confirmShutdown] runs, the handler of stream "a" sends its response
    and starts the goroutine of the stream, and [server.Shutdown]
    succeeds. *)
Definition acts_exit_early : list Action :=
  [Coordinator okEnv;
   Goroutine 0 okEnv; Goroutine 0 okEnv;
   Coordinator okEnv].

(** * Properties *)

Ltac unfold_go :=
  unfold handleNewStream, handleNewStream_register, handleNewStream_respond,
    handleNewStream_func1, handleNewStream_func1_complete,
    startServer_startup, startServer_request, startServer_count,
    startServer_confirm, startServer_stop, startServer_shutdown,
    confirmStartup, confirmShutdown, requestShutdown, connectionComplete,
    updateStatusAndSendRequest, notifyKubernetes, SendRequest, getStatus,
    wg_Done, wg_Wait, wg_Add, Lock, Unlock, logger, emit, modify, get,
    bind, ret in *.

Lemma trace_record e w : trace (record e w) = trace w ++ [e].
Proof. reflexivity. Qed.

Lemma no_lock_in_nil m : (EvLock m ∉ @nil Event) ∧ (EvUnlock m ∉ @nil Event).
Proof. split; apply not_elem_of_nil. Qed.

Lemma no_lock_in_cons e evs :
  (∀ m, e ≠ EvLock m ∧ e ≠ EvUnlock m) →
  (∀ m, (EvLock m ∉ evs) ∧ (EvUnlock m ∉ evs)) →
  ∀ m, (EvLock m ∉ e :: evs) ∧ (EvUnlock m ∉ e :: evs).
Proof.
  intros He Hevs m. destruct (He m), (Hevs m).
  split; intros [?|?]%elem_of_cons; congruence.
Qed.

Lemma SendRequest_Done rt req params w :
  ∃ w', SendRequest rt req params w = Done (SendRequest_err rt) w'
        ∧ status w' = status w ∧ statusMux w' = statusMux w
        ∧ connections w' = connections w
        ∧ connectionsMux w' = connectionsMux w ∧ wg w' = wg w
        ∧ ∃ evs, trace w' = trace w ++ evs
             ∧ ∀ m, (EvLock m ∉ evs) ∧ (EvUnlock m ∉ evs).
Proof.
  destruct rt as [e|e|e|code st]; unfold_go; cbn [SendRequest_err];
    try case_decide;
    (eexists; split; [reflexivity|]);
    (do 5 (split; [reflexivity|]));
    rewrite ?trace_record, <- ?app_assoc;
    (eexists; split; [reflexivity|]);
    repeat (apply no_lock_in_cons; [by split|]); apply no_lock_in_nil.
Qed.

Lemma updateStatusAndSendRequest_Done rt newStatus params w :
  statusMux w = false →
  let q := Values.Add "status" (InstanceStatus.to_string newStatus)
             (default ∅ params) in
  let err := SendRequest_err rt in
  ∃ w1 w2 w',
    w1 = set_status newStatus (record (EvLock StatusMux) (set_held StatusMux true w))
    ∧ SendRequest rt KubeEndpoint.UpdateStatus q w1 = Done err w2
    ∧ statusMux w2 = true
    ∧ updateStatusAndSendRequest rt newStatus params w = Done err w'
    ∧ status w' = newStatus
    ∧ statusMux w' = false
    ∧ trace w' = trace w2
                 ++ match err with
                    | Some e => [EvLog (LogErrorUpdatingStatus e)]
                    | None => []
                    end
                 ++ [EvUnlock StatusMux].
Proof.
  intros Hfree q err.
  destruct (SendRequest_Done rt KubeEndpoint.UpdateStatus q
              (set_status newStatus
                 (record (EvLock StatusMux) (set_held StatusMux true w))))
    as (w2 & Hsend & Hst & Hmux & _).
  simpl in Hst, Hmux.
  exists (set_status newStatus
            (record (EvLock StatusMux) (set_held StatusMux true w))), w2,
         (record (EvUnlock StatusMux)
            (set_held StatusMux false
               match err with
               | Some e => record (EvLog (LogErrorUpdatingStatus e)) w2
               | None => w2
               end)).
  split; [reflexivity|]. split; [exact Hsend|]. split; [exact Hmux|].
  unfold updateStatusAndSendRequest, bind, Lock, modify. cbn [held].
  rewrite Hfree. cbv zeta. fold q. rewrite Hsend. subst err.
  destruct (SendRequest_err rt) as [e|];
    unfold logger, emit, modify, ret, Unlock;
    cbn [held statusMux set_held record]; rewrite Hmux;
    (split; [reflexivity|]); simpl; rewrite ?Hst, <- ?app_assoc; done.
Qed.

Ltac frame_crunch :=
  let w := fresh "w" in
  intros w ? ? Hrun [Hs Hc]; unfold locks_free; destruct w; unfold_go;
  simpl in *; simplify_eq/=;
  repeat (first [case_match | case_decide]; simplify_eq/=);
  split_and?; try first [done | lia].

Lemma frames_startServer_startup rt : frames (startServer_startup rt) 0.
Proof. frame_crunch. Qed.

Lemma frames_startServer_request rt r : frames (startServer_request rt r) 0.
Proof. frame_crunch. Qed.

Lemma frames_startServer_count : frames startServer_count 0.
Proof. frame_crunch. Qed.

Lemma frames_startServer_confirm rt : frames (startServer_confirm rt) 0.
Proof. frame_crunch. Qed.

Lemma frames_startServer_stop err : frames (startServer_stop err) 0.
Proof. frame_crunch. Qed.

Lemma frames_logger l : frames (logger l) 0.
Proof. frame_crunch. Qed.

Lemma frames_wg_Wait : frames wg_Wait 0.
Proof. frame_crunch. Qed.

Lemma frames_wg_Add δ : frames (wg_Add δ) δ.
Proof. frame_crunch. Qed.

Lemma frames_wg_Done : frames wg_Done (-1).
Proof. frame_crunch. Qed.

Lemma frames_handleNewStream_register body dial rw :
  frames (handleNewStream_register body dial rw) 0.
Proof. frame_crunch. Qed.

Lemma frames_getStatus json_Marshal rw : frames (getStatus json_Marshal rw) 0.
Proof. frame_crunch. Qed.

Lemma frames_handleNewStream_func1_complete rt UUID conn :
  frames (handleNewStream_func1_complete rt UUID conn) 0.
Proof. frame_crunch. Qed.

Lemma inflight_app ps p :
  inflight (ps ++ [p]) = (inflight ps + if running p then 1 else 0)%nat.
Proof. induction ps as [|q ps IH]; simpl; [lia|]. rewrite IH. lia. Qed.

Lemma inflight_insert ps i p p' :
  ps !! i = Some p →
  (inflight (<[i:=p']> ps) + (if running p then 1 else 0) =
   inflight ps + (if running p' then 1 else 0))%nat.
Proof.
  revert i. induction ps as [|q ps IH]; intros [|i] Hi; simplify_eq/=.
  - lia.
  - specialize (IH _ Hi). lia.
Qed.

Lemma perform_Some {A} (m : M A) s a s' :
  perform m s = Some (a, s') →
  ∃ w', m (world s) = Done a w' ∧ s' = set_world w' s.
Proof.
  unfold perform. destruct (m (world s)); intros; simplify_eq. eauto.
Qed.

Lemma perform_frames {A} (m : M A) δ s a s' :
  frames m δ → perform m s = Some (a, s') → locks_free (world s) →
  ∃ w', s' = set_world w' s ∧ locks_free w' ∧ wg w' = wg (world s) + δ.
Proof.
  intros Hm (w' & Hrun & ->)%perform_Some Hfree.
  destruct (Hm _ _ _ Hrun Hfree). eauto.
Qed.

Lemma Inv_init : Inv initialState.
Proof. split; simpl; try done. by intros d [= <-]. Qed.

Lemma exec_dispatch a s s' :
  exec a s = Some s' → coord s ≠ CExited ∧ dispatch a s = Some s'.
Proof. unfold exec. destruct (coord s); done. Qed.

Lemma send_shutdown_Some r s s' :
  shutdownServer s = make_chan 0 →
  send_shutdown r s = Some s' →
  coord s = CAwait ∧ s' = set_coord (CRequest r) s.
Proof.
  intros Hc. unfold send_shutdown. rewrite Hc. simpl.
  destruct (coord s); done || by intros [= <-].
Qed.

Create HintDb frames.
#[local] Hint Resolve frames_startServer_startup frames_startServer_request
  frames_startServer_count frames_startServer_confirm frames_startServer_stop
  frames_logger frames_wg_Wait frames_wg_Add frames_wg_Done
  frames_handleNewStream_register frames_handleNewStream_func1_complete
  frames_getStatus : frames.

Ltac use_frames :=
  repeat match goal with
  | H : (_ * State)%type |- _ => destruct H as [? ?]
  | H : perform _ _ = Some _ |- _ =>
      eapply perform_frames in H as (? & -> & ? & ?);
        [ | solve [eauto with frames] | done ]
  end.

Lemma exec_Inv a s s' : Inv s → exec a s = Some s' → Inv s'.
Proof.
  intros [Hl Hs Hc Hwg Hu Hd Hr] [Hne Hexec]%exec_dispatch.
  destruct a as [d|e| |c|body|i e|m]; simpl in Hexec.
  - (* Tick *)
    case_decide; simplify_eq. by split.
  - (* Coordinator *)
    unfold startServer_step in Hexec. rewrite Hs in Hexec.
    destruct (coord s) eqn:Ec; simplify_option_eq; use_frames;
      simplify_eq; (split; simpl; [done..|lia| | |]; try done).
  - (* startLifetimeTimer *)
    unfold startLifetimeTimer_step in Hexec.
    destruct (lifetimeTimer s) eqn:El; [| |done].
    + case_decide; [|done]. simplify_option_eq.
      split; simpl; try done;
        unfold delivered in *; simpl in *; by rewrite El in *.
    + destruct (send_shutdown ShutdownReason.Lifetime s) as [s1|] eqn:Esend;
        [|done].
      apply send_shutdown_Some in Esend as [Ec ->]; [|done].
      simplify_eq/=. rewrite Ec in Hd. unfold delivered in Hd.
      rewrite El in Hd. simpl in Hd. split; simpl; try done.
      * unfold delivered; simpl. by rewrite Hd.
      * intros r [= <-]. unfold delivered; simpl. by rewrite Hd.
  - (* startUsageTimer *)
    unfold startUsageTimer_step in Hexec. rewrite Hc in Hexec.
    destruct (usageTimer s) eqn:Eu; [| |done].
    + destruct c; [done|]. case_decide; [|done]. simplify_eq.
      split; simpl; try done;
        unfold delivered in *; simpl in *; by rewrite Eu in *.
    + destruct (send_shutdown ShutdownReason.Usage s) as [s1|] eqn:Esend;
        [|done].
      apply send_shutdown_Some in Esend as [Ec ->]; [|done].
      simplify_option_eq. rewrite Ec in Hd. unfold delivered in Hd.
      rewrite Eu in Hd. apply app_eq_nil in Hd as [Hd _].
      split; simpl; try done.
      * unfold delivered; simpl. by rewrite Hd.
      * intros r [= <-]. unfold delivered; simpl. by rewrite Hd.
  - (* a request arrives *)
    simplify_eq. split; simpl; try done.
    rewrite inflight_app. simpl. lia.
  - (* handleNewStream and its goroutine *)
    destruct (procs s !! i) as [p|] eqn:Ep; simplify_option_eq.
    match goal with H : handleNewStream_step _ _ _ = _ |- _ =>
      rename H into Hstep end.
    pose proof (inflight_insert (procs s) i p) as Hins.
    destruct p; simpl in Hstep; simplify_option_eq; use_frames;
      repeat case_match; simplify_eq;
      (split; simpl; try done);
      first
        [ match goal with
          | H : consumed (coord s) = _ |- _ => by rewrite H
          end
        | match goal with
          | |- context [<[i:=?q]> (procs s)] => specialize (Hins q Ep)
          end; simpl in *; lia ].
  - (* getStatus *)
    destruct (perform (getStatus m []) s) as [[rw s1]|] eqn:E; [|done].
    use_frames. simplify_eq/=. split; simpl; try done. lia.
Qed.

Lemma Reachable_Inv s : Reachable s → Inv s.
Proof. induction 1; eauto using Inv_init, exec_Inv. Qed.

Lemma run_Reachable acts s s' :
  Reachable s → run acts s = Some s' → Reachable s'.
Proof.
  revert s. induction acts as [|a acts IH]; intros s Hs Hrun; simplify_eq/=.
  - done.
  - destruct (exec a s) as [s1|] eqn:E; simplify_eq/=.
    eauto using Reachable_step.
Qed.

Lemma handleNewStream_status body net_Dial rw st w :
  handleNewStream body net_Dial rw (set_status st w) =
    match handleNewStream body net_Dial rw w with
    | Done r w' => Done r (set_status st w')
    | Blocked => Blocked
    | Panicked msg => Panicked msg
    end.
Proof.
  unfold_go. destruct w as [? ? ? [] ? ?]; simpl; [done|].
  destruct body as [UUID URL|e]; simpl; [|done].
  destruct (net_Dial URL); simpl; [|done].
  case_decide; done.
Qed.

Lemma handleNewStream_Done UUID URL conn net_Dial rw w :
  connectionsMux w = false → 0 ≤ wg w → net_Dial URL = Dialed conn →
  handleNewStream (Decoded UUID URL) net_Dial rw w =
    Done (sendResponse rw http.StatusOK BodyNil, Some (UUID, conn))
      (registered UUID conn w).
Proof.
  intros Hfree Hwg Hdial. unfold_go. simpl. rewrite Hfree, Hdial. simpl.
  case_decide; [lia|done].
Qed.

(** C1 (as the code has it): [handleNewStream] never reads [status]. At
    every status, [ShutdownRequested] and the later ones included, a request
    whose body decodes and whose target can be dialled is registered under
    its id and answered 200, and the goroutine of the stream is started;
    what the handler does is the same at every status. *)
Theorem handleNewStream_registers_at_any_status
    st UUID URL conn net_Dial rw w :
  connectionsMux w = false → 0 ≤ wg w → net_Dial URL = Dialed conn →
  (∃ w', handleNewStream (Decoded UUID URL) net_Dial rw (set_status st w) =
           Done (sendResponse rw http.StatusOK BodyNil, Some (UUID, conn)) w'
         ∧ status w' = st
         ∧ connections w' = <[UUID := conn]> (connections w)
         ∧ wg w' = wg w + 1)
  ∧ (∀ body dial rw',
       handleNewStream body dial rw' (set_status st w) =
         match handleNewStream body dial rw' w with
         | Done r w' => Done r (set_status st w')
         | Blocked => Blocked
         | Panicked msg => Panicked msg
         end).
Proof.
  intros Hfree Hwg Hdial. split.
  - rewrite handleNewStream_status,
      (handleNewStream_Done UUID URL conn) by done.
    eexists. split; [reflexivity|]. done.
  - intros. apply handleNewStream_status.
Qed.

Lemma handleNewStream_registers_at_any_status_witness :
  connectionsMux initialWorld = false
  ∧ 0 ≤ wg initialWorld
  ∧ envDial okEnv "10.0.0.3:1935" = Dialed conn_c
  ∧ (∃ w', handleNewStream (Decoded "c" "10.0.0.3:1935") (envDial okEnv) []
             (set_status InstanceStatus.ShuttingDown initialWorld) =
             Done (sendResponse [] http.StatusOK BodyNil, Some ("c", conn_c)) w'
           ∧ status w' = InstanceStatus.ShuttingDown
           ∧ connections w' = <["c" := conn_c]> (connections initialWorld)
           ∧ wg w' = wg initialWorld + 1).
Proof.
  split; [reflexivity|]. split; [done|]. split; [reflexivity|].
  apply (handleNewStream_registers_at_any_status InstanceStatus.ShuttingDown
           "c" "10.0.0.3:1935" conn_c (envDial okEnv) [] initialWorld);
    [reflexivity|done|reflexivity].
Defined.

(** C1, counterexample: after the coordinator has set [ShutdownRequested],
    a request for stream "c" is registered and answered 200. *)
Lemma registration_after_shutdown_requested :
  ∃ s1 s2,
    run acts_shutdown_requested initialState = Some s1
    ∧ status (world s1) = InstanceStatus.ShutdownRequested
    ∧ connections (world s1) !! "c" = None
    ∧ run acts_late_request s1 = Some s2
    ∧ status (world s2) = InstanceStatus.ShutdownRequested
    ∧ connections (world s2) !! "c" = Some conn_c
    ∧ procs s2 = [HResponded "c" conn_c
                    (sendResponse [] http.StatusOK BodyNil)].
Proof.
  eexists _, _. split; [vm_compute; reflexivity|].
  split; [reflexivity|]. split; [reflexivity|].
  split; [vm_compute; reflexivity|]. split; [reflexivity|].
  split; reflexivity.
Qed.

(** C7 (as the code has it): [handleNewStream] has no check for an id that
    is already registered. The request is answered 200, the connection
    registered under the id is replaced by the new one, the other entries
    and the number of entries stay as they were. *)
Theorem duplicate_id_overwrites UUID URL old conn net_Dial rw w :
  connections w !! UUID = Some old →
  connectionsMux w = false → 0 ≤ wg w → net_Dial URL = Dialed conn →
  ∃ w', handleNewStream (Decoded UUID URL) net_Dial rw w =
          Done (sendResponse rw http.StatusOK BodyNil, Some (UUID, conn)) w'
        ∧ connections w' !! UUID = Some conn
        ∧ (∀ k, k ≠ UUID → connections w' !! k = connections w !! k)
        ∧ size (connections w') = size (connections w).
Proof.
  intros Hold Hfree Hwg Hdial.
  rewrite (handleNewStream_Done UUID URL conn) by done.
  eexists. split; [reflexivity|]. simpl. split; [|split].
  - apply lookup_insert_eq.
  - intros k Hk. by apply lookup_insert_ne.
  - rewrite <- (insert_delete_id (connections w) UUID old) at 2 by done.
    rewrite <- (insert_delete_eq (connections w)).
    rewrite !map_size_insert_None by apply lookup_delete_eq. done.
Qed.

Lemma duplicate_id_overwrites_witness :
  connections world_with_a !! "a" = Some conn_a
  ∧ ∃ w', handleNewStream (Decoded "a" "10.0.0.2:1935")
            (λ url, Dialed conn_a') [] world_with_a =
            Done (sendResponse [] http.StatusOK BodyNil, Some ("a", conn_a')) w'
          ∧ connections w' !! "a" = Some conn_a'
          ∧ (∀ k, k ≠ "a" → connections w' !! k = connections world_with_a !! k)
          ∧ size (connections w') = size (connections world_with_a).
Proof.
  split; [reflexivity|].
  apply (duplicate_id_overwrites "a" "10.0.0.2:1935" conn_a conn_a'
           (λ url, Dialed conn_a') [] world_with_a);
    [reflexivity|reflexivity|done|reflexivity].
Defined.

(** C7, counterexample: a second request with id "a" is answered 200 and
    the connection registered under "a" is no longer the first one. *)
Lemma duplicate_id_accepted :
  connections world_with_a !! "a" = Some conn_a
  ∧ ∃ w', handleNewStream (Decoded "a" "10.0.0.2:1935")
            (λ url, Dialed conn_a') [] world_with_a =
            Done ([HeaderSet "Content-Type" "application/json";
                   WriteHeader 200; Encode BodyNil], Some ("a", conn_a')) w'
          ∧ connections w' !! "a" = Some conn_a'
          ∧ conn_a' ≠ conn_a.
Proof.
  split; [reflexivity|]. eexists. split; [vm_compute; reflexivity|].
  split; [reflexivity|]. discriminate.
Qed.

Lemma handleNewStream_func1_Done rt UUID conn w :
  connectionsMux w = false → 1 ≤ wg w →
  ∃ w', handleNewStream_func1 rt UUID conn w = Done tt w'
        ∧ connections w' = delete (RemoteAddr conn) (connections w)
        ∧ wg w' = wg w - 1
        ∧ status w' = status w
        ∧ connectionsMux w' = false.
Proof.
  intros Hfree Hwg.
  unfold handleNewStream_func1, handleNewStream_func1_complete,
    connectionComplete, bind, Lock, modify. cbn [held]. rewrite Hfree.
  match goal with |- context [SendRequest ?a ?b ?c ?d] =>
    destruct (SendRequest_Done a b c d)
      as (w2 & -> & Hst & _ & Hconn & Hmux & Hw & _) end.
  simpl in Hst, Hconn, Hmux, Hw.
  destruct (SendRequest_err rt); unfold_go; simpl; rewrite Hmux; simpl;
    rewrite Hw; (case_decide; [lia|]); (eexists; split; [reflexivity|]);
    simpl; rewrite Hconn, Hst; repeat split; lia.
Qed.

(** The state of the registry after a stream was registered and its goroutine
    has finished: the key that is deleted is the remote address of the
    connection, not the id under which the connection was registered. *)
Lemma completion_deletes_remote_address rt UUID URL conn net_Dial rw w :
  connectionsMux w = false → 0 ≤ wg w → net_Dial URL = Dialed conn →
  ∃ r w1 w2,
    handleNewStream (Decoded UUID URL) net_Dial rw w = Done r w1
    ∧ handleNewStream_func1 rt UUID conn w1 = Done tt w2
    ∧ connections w2 =
        delete (RemoteAddr conn) (<[UUID := conn]> (connections w))
    ∧ wg w2 = wg w.
Proof.
  intros Hfree Hwg Hdial.
  rewrite (handleNewStream_Done UUID URL conn) by done.
  destruct (handleNewStream_func1_Done rt UUID conn (registered UUID conn w))
    as (w2 & E & Hconn & Hw & _); [reflexivity|cbn; lia|].
  eexists _, _, w2. split; [reflexivity|]. split; [done|].
  simpl in Hconn, Hw. split; [done|lia].
Qed.

(** C2, on the code: stream "a" is registered on an empty registry and its
    goroutine runs to its end. One admission, one completion, no rejection,
    and the registry still holds "a": its size is 1, not 0. *)
Theorem session_survives_completion :
  ∃ r w1 w2,
    handleNewStream (Decoded "a" "10.0.0.1:1935") (envDial okEnv) []
      initialWorld = Done r w1
    ∧ handleNewStream_func1 (envRoundTrip okEnv) "a" conn_a w1 = Done tt w2
    ∧ r = (sendResponse [] http.StatusOK BodyNil, Some ("a", conn_a))
    ∧ connections w2 !! "a" = Some conn_a
    ∧ size (connections w2) = 1%nat
    ∧ wg w2 = 0.
Proof.
  eexists _, _, _. split; [vm_compute; reflexivity|].
  split; [vm_compute; reflexivity|]. repeat split.
Qed.

(** C6 (as the code has it): when [server.Shutdown] returns an error, the
    error is logged and the control plane is told
    [("Server Shutdown Failed", err)] through [notifyKubernetes];
    [status] is not assigned and stays [ShuttingDown]; [startServer]
    returns whether [server.Shutdown] failed or not. *)
Theorem shutdown_failure_notifies_and_exits rt err w :
  statusMux w = false →
  ∃ w1 w' w'',
    startServer_confirm rt w = Done tt w1
    ∧ status w1 = InstanceStatus.ShuttingDown
    ∧ startServer_shutdown rt (Some err) w = Done tt w'
    ∧ status w' = InstanceStatus.ShuttingDown
    ∧ trace w' =
        trace w1 ++
        [EvLog (LogServerShutdownFailed err);
         EvPost (kubeAPIURL +:+ KubeEndpoint.Notify) "application/json"
           (<["message" := err]> (<["reason" := "Server Shutdown Failed"]> ∅));
         EvLog LogServerExited]
    ∧ startServer_shutdown rt None w = Done tt w''
    ∧ status w'' = InstanceStatus.ShuttingDown.
Proof.
  intros Hfree.
  assert (Hfree' : statusMux (record (EvLog LogShuttingDownAndNotifying) w)
                   = false) by done.
  destruct (updateStatusAndSendRequest_Done rt InstanceStatus.ShuttingDown
              None _ Hfree') as (? & w2 & w3 & _ & _ & _ & E & Hst & _).
  unfold startServer_shutdown, startServer_confirm, confirmShutdown,
    startServer_stop, notifyKubernetes, bind, logger, emit, modify.
  rewrite E.
  eexists _, _, _. split; [reflexivity|]. split; [exact Hst|].
  split; [reflexivity|]. split; [exact Hst|].
  split; [|split; [reflexivity|exact Hst]].
  simpl. by rewrite <- !app_assoc.
Qed.

Lemma shutdown_failure_notifies_and_exits_witness :
  statusMux world_drained = false
  ∧ ∃ w1 w' w'',
      startServer_confirm (Response 200 "200 OK") world_drained = Done tt w1
      ∧ status w1 = InstanceStatus.ShuttingDown
      ∧ startServer_shutdown (Response 200 "200 OK")
          (Some "context deadline exceeded") world_drained = Done tt w'
      ∧ status w' = InstanceStatus.ShuttingDown
      ∧ trace w' =
          trace w1 ++
          [EvLog (LogServerShutdownFailed "context deadline exceeded");
           EvPost (kubeAPIURL +:+ KubeEndpoint.Notify) "application/json"
             (<["message" := "context deadline exceeded"]>
                (<["reason" := "Server Shutdown Failed"]> ∅));
           EvLog LogServerExited]
      ∧ startServer_shutdown (Response 200 "200 OK") None world_drained =
          Done tt w''
      ∧ status w'' = InstanceStatus.ShuttingDown.
Proof.
  split; [reflexivity|].
  apply (shutdown_failure_notifies_and_exits (Response 200 "200 OK")
           "context deadline exceeded" world_drained).
  reflexivity.
Defined.

(** C6, counterexample: [server.Shutdown] fails with
    "context deadline exceeded"; the control plane is notified and
    [startServer] returns with [status] equal to [ShuttingDown], not
    [ShutdownFailed]. *)
Lemma shutdown_failure_keeps_status :
  ∃ w', startServer_shutdown (Response 200 "200 OK")
          (Some "context deadline exceeded") world_drained = Done tt w'
        ∧ status w' = InstanceStatus.ShuttingDown
        ∧ status w' ≠ InstanceStatus.ShutdownFailed.
Proof.
  eexists. split; [vm_compute; reflexivity|]. split; [reflexivity|].
  discriminate.
Qed.

(** C8: [updateStatusAndSendRequest] takes [statusMux], assigns [status],
    calls [SendRequest] on the update-status endpoint with the mutex still
    held, releases the mutex and returns what [SendRequest] returned. When
    [SendRequest] fails, [status] keeps the new value. In the trace,
    everything the call does lies between its [Lock] and its [Unlock]. *)
Theorem updateStatusAndSendRequest_spec rt newStatus params w :
  statusMux w = false →
  let q := Values.Add "status" (InstanceStatus.to_string newStatus)
             (default ∅ params) in
  let err := SendRequest_err rt in
  ∃ w1 w2 w' evs,
    w1 = set_status newStatus
           (record (EvLock StatusMux) (set_held StatusMux true w))
    ∧ SendRequest rt KubeEndpoint.UpdateStatus q w1 = Done err w2
    ∧ statusMux w2 = true
    ∧ updateStatusAndSendRequest rt newStatus params w = Done err w'
    ∧ status w' = newStatus
    ∧ statusMux w' = false
    ∧ trace w2 = trace w ++ EvLock StatusMux :: evs
    ∧ trace w' = trace w2
                 ++ match err with
                    | Some e => [EvLog (LogErrorUpdatingStatus e)]
                    | None => []
                    end
                 ++ [EvUnlock StatusMux]
    ∧ (∀ m, (EvLock m ∉ evs) ∧ (EvUnlock m ∉ evs)).
Proof.
  intros Hfree q err.
  destruct (updateStatusAndSendRequest_Done rt newStatus params w Hfree)
    as (w1 & w2 & w' & Hw1 & Hsend & Hmux & Hrun & Hst & Hmux' & Htr).
  destruct (SendRequest_Done rt KubeEndpoint.UpdateStatus q w1)
    as (w2' & Hsend' & _ & _ & _ & _ & _ & evs & Hevs & Hnone).
  fold q err in Hsend. fold err in Hsend'.
  rewrite Hsend in Hsend'. injection Hsend' as <-.
  exists w1, w2, w', evs. repeat (split; [done|]).
  split; [|split; [exact Htr|exact Hnone]].
  rewrite Hevs, Hw1. simpl. by rewrite <- app_assoc.
Qed.

Lemma updateStatusAndSendRequest_spec_witness :
  statusMux initialWorld = false
  ∧ ∃ w1 w2 w' evs,
      w1 = set_status InstanceStatus.Running
             (record (EvLock StatusMux) (set_held StatusMux true initialWorld))
      ∧ SendRequest (DoError "connection refused") KubeEndpoint.UpdateStatus
          (Values.Add "status" "Running" ∅) w1
        = Done (Some "connection refused") w2
      ∧ statusMux w2 = true
      ∧ updateStatusAndSendRequest (DoError "connection refused")
          InstanceStatus.Running None initialWorld
        = Done (Some "connection refused") w'
      ∧ status w' = InstanceStatus.Running
      ∧ statusMux w' = false
      ∧ trace w2 = trace initialWorld ++ EvLock StatusMux :: evs
      ∧ trace w' = trace w2
                   ++ [EvLog (LogErrorUpdatingStatus "connection refused")]
                   ++ [EvUnlock StatusMux]
      ∧ (∀ m, (EvLock m ∉ evs) ∧ (EvUnlock m ∉ evs)).
Proof.
  split; [reflexivity|].
  apply (updateStatusAndSendRequest_spec (DoError "connection refused")
           InstanceStatus.Running None initialWorld).
  reflexivity.
Defined.

(** While [statusMux] is held by another goroutine the call waits. *)
Lemma updateStatusAndSendRequest_Blocked rt newStatus params w :
  statusMux w = true →
  updateStatusAndSendRequest rt newStatus params w = Blocked.
Proof.
  intros Hheld. unfold updateStatusAndSendRequest, bind, Lock. cbn [held].
  by rewrite Hheld.
Qed.

(** C9: [SendRequest] returns [nil] whenever the round trip completed,
    whatever the status code of the response; a code other than 200 only
    adds a log line. It returns an error exactly when parsing the URL,
    creating the request or sending it failed. *)
Theorem SendRequest_completed_round_trip_is_success req params w :
  let u := MkURL (kubeAPIURL +:+ req) params in
  (∀ code st,
     SendRequest (Response code st) req params w =
       Done None
         (if decide (code = http.StatusOK)
          then record (EvDo "POST" u) w
          else record (EvLog (LogRequestReturnedStatus u st))
                 (record (EvDo "POST" u) w)))
  ∧ (∀ e, SendRequest (ParseError e) req params w =
            Done (Some e) (record (EvLog (LogErrorParsingURL e)) w))
  ∧ (∀ e, SendRequest (NewRequestError e) req params w =
            Done (Some e) (record (EvLog (LogErrorCreatingRequest e)) w))
  ∧ (∀ e, SendRequest (DoError e) req params w =
            Done (Some e)
              (record (EvLog (LogErrorSendingRequest e))
                 (record (EvDo "POST" u) w))).
Proof.
  intros u. repeat split; intros; unfold_go; simpl; try done.
  repeat case_decide; done.
Qed.

(** C10: [getStatus] always ends by writing the 200 response with
    [jsonPayload]. When [json.Marshal] fails, the handler has written the
    500 response before, does not return, and writes the 200 response
    after it. *)
Theorem getStatus_always_writes_200 json_Marshal rw w :
  statusMux w = false →
  let payload : gmap string string :=
    <["streams" := pretty (size (connections w))]>
      (<["status" := InstanceStatus.to_string (status w)]> ∅) in
  ∃ w',
    getStatus json_Marshal rw w =
      Done (rw
            ++ match (json_Marshal payload).2 with
               | Some e =>
                   [HeaderSet "Content-Type" "application/json";
                    WriteHeader http.StatusInternalServerError;
                    Encode (BodyString
                              ("Error marshalling status into JSON: "
                               +:+ e +:+ newline))]
               | None => []
               end
            ++ [HeaderSet "Content-Type" "application/json";
                WriteHeader http.StatusOK;
                Encode (BodyBytes (json_Marshal payload).1)]) w'
    ∧ status w' = status w
    ∧ connections w' = connections w.
Proof.
  intros Hfree payload. unfold getStatus, bind, Lock, get, Unlock.
  cbn [held]. rewrite Hfree. simpl. fold payload.
  destruct (json_Marshal payload) as [jsonPayload [e|]]; unfold_go;
    unfold sendResponse; simpl; rewrite <- ?app_assoc; eauto.
Qed.

Lemma getStatus_always_writes_200_witness :
  statusMux initialWorld = false
  ∧ ∃ w',
      getStatus (λ _, ([], Some "unsupported type")) [] initialWorld =
        Done [HeaderSet "Content-Type" "application/json";
              WriteHeader 500;
              Encode (BodyString
                        ("Error marshalling status into JSON: "
                         +:+ "unsupported type" +:+ newline));
              HeaderSet "Content-Type" "application/json";
              WriteHeader 200;
              Encode (BodyBytes [])] w'
      ∧ status w' = status initialWorld
      ∧ connections w' = connections initialWorld.
Proof.
  split; [reflexivity|].
  apply (getStatus_always_writes_200 (λ _, ([], Some "unsupported type"))
           [] initialWorld).
  reflexivity.
Defined.

Lemma set_world_id s : set_world (world s) s = s.
Proof. by destruct s. Qed.

(** The wait of line 283 is [wg.Wait()]. In every state the process can
    reach with the coordinator at that line, the counter of the wait group
    is the number of goroutines started by [handleNewStream] that are
    between their [wg.Add(1)] and their deferred [wg.Done()], and the wait
    returns exactly when there is none; [connections] is not read. *)
Lemma drain_returns_iff_wait_group_zero s e :
  Reachable s → coord s = CDrain →
  wg (world s) = Z.of_nat (inflight (procs s))
  ∧ ((exec (Coordinator e) s = Some (set_coord CConfirm s)
      ∧ inflight (procs s) = 0%nat)
     ∨ (exec (Coordinator e) s = None ∧ inflight (procs s) ≠ 0%nat)).
Proof.
  intros Hreach Hc. destruct (Reachable_Inv s Hreach) as [_ _ _ Hwg _ _ _].
  split; [exact Hwg|].
  unfold exec. rewrite Hc. simpl. unfold startServer_step. rewrite Hc.
  unfold perform, wg_Wait. simpl.
  case_decide as Hz; simpl.
  - left. rewrite set_world_id. split; [done|lia].
  - right. split; [done|lia].
Qed.

(** C3: the wait of line 283 returns while a stream is registered and its
    handler is on its way to [wg.Add(1)]. The request for stream "a"
    arrives as the inactivity timer fires; the handler registers the
    connection and releases [connectionsMux] (lines 326-327), and has not
    yet reached line 333. The coordinator logs that it waits on 1 stream,
    [wg.Wait()] finds the counter at zero and returns at once. The handler
    then answers 200 and starts the goroutine of the stream, and
    [startServer] returns with status [ShuttingDown] while "a" is
    registered and that goroutine runs. Had the handler passed line 333
    before the coordinator reached the wait, the wait would not have
    returned. *)
Theorem drain_returns_while_stream_registered :
  (∃ s1 s2 s3,
     run acts_drain_early initialState = Some s1
     ∧ coord s1 = CDrain
     ∧ connections (world s1) !! "a" = Some conn_a
     ∧ size (connections (world s1)) = 1%nat
     ∧ procs s1 = [HRegistered "a" conn_a []]
     ∧ wg (world s1) = 0
     ∧ take 3 (reverse (trace (world s1))) =
         [EvUnlock ConnectionsMux; EvLog (LogWaitingOnStreams 1);
          EvLock ConnectionsMux]
     ∧ exec (Coordinator okEnv) s1 = Some s2
     ∧ coord s2 = CConfirm
     ∧ run acts_exit_early s2 = Some s3
     ∧ coord s3 = CExited
     ∧ status (world s3) = InstanceStatus.ShuttingDown
     ∧ connections (world s3) !! "a" = Some conn_a
     ∧ procs s3 = [TRunning "a" conn_a (15 * time.Minute)]
     ∧ inflight (procs s3) = 1%nat)
  ∧ (run acts_drain_busy initialState = Some state_drain_busy
     ∧ coord state_drain_busy = CDrain
     ∧ connections (world state_drain_busy) !! "a" = Some conn_a
     ∧ procs state_drain_busy = [TRunning "a" conn_a 0]
     ∧ exec (Coordinator okEnv) state_drain_busy = None).
Proof.
  split.
  - eexists _, _, _.
    repeat match goal with
           | |- _ ∧ _ => split; [vm_compute; reflexivity|]
           end.
    vm_compute; reflexivity.
  - repeat match goal with
           | |- _ ∧ _ => split; [vm_compute; reflexivity|]
           end.
    vm_compute; reflexivity.
Qed.

Lemma handleNewStream_step_world e p s p' s' :
  handleNewStream_step e p s = Some (p', s') → ∃ w', s' = set_world w' s.
Proof.
  destruct p; simpl; intros H; simplify_option_eq;
    repeat match goal with
    | H : (_ * State)%type |- _ => destruct H as [? ?]
    | H : (_ * _)%type |- _ => destruct H as [? ?]
    | H : option _ |- _ => destruct H
    | H : perform _ _ = Some _ |- _ =>
        apply perform_Some in H as (? & _ & ->)
    end; simplify_eq; eauto using eq_sym, set_world_id.
Qed.

(** Once the coordinator has received a reason, no step delivers another
    one, and a timer that stands at its send stays there. *)
Lemma exec_after_consumed a s s' :
  Inv s → consumed (coord s) = true → exec a s = Some s' →
  consumed (coord s') = true
  ∧ delivered s' = delivered s
  ∧ (lifetimeTimer s = LSend → lifetimeTimer s' = LSend)
  ∧ (usageTimer s = USend → usageTimer s' = USend).
Proof.
  intros [Hl Hs Hc _ _ _ _] Hcons [Hne Hexec]%exec_dispatch.
  destruct a as [d|e| |c|body|i e|m]; simpl in Hexec.
  - case_decide; by simplify_eq.
  - unfold startServer_step in Hexec. rewrite Hs in Hexec.
    destruct (coord s) eqn:Ec; simplify_option_eq;
      repeat match goal with
      | H : (_ * State)%type |- _ => destruct H as [? ?]
      | H : perform _ _ = Some _ |- _ =>
          apply perform_Some in H as (? & _ & ->)
      end; by simplify_eq.
  - unfold startLifetimeTimer_step in Hexec.
    destruct (lifetimeTimer s) eqn:El; [| |done].
    + case_decide; [|done]. simplify_option_eq. simpl.
      unfold delivered; simpl. by rewrite El.
    + destruct (send_shutdown ShutdownReason.Lifetime s) eqn:Esend; [|done].
      apply send_shutdown_Some in Esend as [Ec ->]; [|done].
      by rewrite Ec in Hcons.
  - unfold startUsageTimer_step in Hexec. rewrite Hc in Hexec.
    destruct (usageTimer s) eqn:Eu; [| |done].
    + destruct c; [done|]. case_decide; [|done]. simplify_eq. simpl.
      unfold delivered; simpl. by rewrite Eu.
    + destruct (send_shutdown ShutdownReason.Usage s) eqn:Esend; [|done].
      apply send_shutdown_Some in Esend as [Ec ->]; [|done].
      by rewrite Ec in Hcons.
  - by simplify_eq.
  - destruct (procs s !! i) as [p|] eqn:Ep; [|done]. simpl in Hexec.
    destruct (handleNewStream_step e p s) as [[p' s1]|] eqn:Estep; [|done].
    apply handleNewStream_step_world in Estep as [w' ->].
    by simplify_eq/=.
  - destruct (perform (getStatus m []) s) as [[rw s1]|] eqn:E; [|done].
    apply perform_Some in E as (? & _ & ->). by simplify_eq/=.
Qed.

Lemma run_after_consumed acts s s' :
  Inv s → consumed (coord s) = true → run acts s = Some s' →
  consumed (coord s') = true
  ∧ delivered s' = delivered s
  ∧ (lifetimeTimer s = LSend → lifetimeTimer s' = LSend)
  ∧ (usageTimer s = USend → usageTimer s' = USend).
Proof.
  revert s. induction acts as [|a acts IH]; intros s HI Hcons Hrun;
    simplify_eq/=; [done|].
  destruct (exec a s) as [s1|] eqn:E; simplify_eq/=.
  destruct (exec_after_consumed _ _ _ HI Hcons E) as (Hc1 & Hd1 & Hl1 & Hu1).
  destruct (IH s1) as (? & ? & ? & ?); eauto using exec_Inv.
  split; [done|]. split; [congruence|]. split; eauto.
Qed.

Lemma send_shutdown_blocked r s :
  Inv s → consumed (coord s) = true → send_shutdown r s = None.
Proof.
  intros [_ Hs _ _ _ _ _] Hcons. unfold send_shutdown. rewrite Hs. simpl.
  by destruct (coord s).
Qed.

Lemma exec_LifetimeTimer_blocked s :
  Inv s → consumed (coord s) = true → lifetimeTimer s = LSend →
  exec LifetimeTimer s = None.
Proof.
  intros HI Hcons Hl. unfold exec. destruct (coord s) eqn:Ec; try done;
    simpl; unfold startLifetimeTimer_step; rewrite Hl;
    rewrite send_shutdown_blocked; rewrite ?Ec; done.
Qed.

Lemma exec_UsageTimer_blocked c s :
  Inv s → consumed (coord s) = true → usageTimer s = USend →
  exec (UsageTimer c) s = None.
Proof.
  intros HI Hcons Hu. unfold exec. destruct (coord s) eqn:Ec; try done;
    simpl; unfold startUsageTimer_step; rewrite Hu;
    rewrite send_shutdown_blocked; rewrite ?Ec; done.
Qed.

(** C4 (as the code has it): [shutdownServer] is made without a capacity.
    The coordinator receives one reason, the one of the timer that sent
    first. From then on no second reason is delivered: a timer that reaches
    its send, or stands at it, stays blocked there in every later state of
    the process. *)
Theorem shutdown_reason_delivery s :
  Reachable s →
  cap (shutdownServer s) = 0%nat
  ∧ (∀ r, coord s = CRequest r → delivered s = [r])
  ∧ (consumed (coord s) = false → delivered s = [])
  ∧ (consumed (coord s) = true →
       length (delivered s) = 1%nat
       ∧ ∀ acts s', run acts s = Some s' →
           delivered s' = delivered s
           ∧ (lifetimeTimer s = LSend →
                lifetimeTimer s' = LSend ∧ exec LifetimeTimer s' = None)
           ∧ (usageTimer s = USend →
                usageTimer s' = USend ∧ ∀ c, exec (UsageTimer c) s' = None)).
Proof.
  intros Hreach. pose proof (Reachable_Inv s Hreach) as HI.
  destruct HI as [Hl Hs Hc Hwg Hu Hd Hr] eqn:EI. clear EI.
  split; [by rewrite Hs|]. split; [done|]. split.
  - intros Hcons. by rewrite Hcons in Hd.
  - intros Hcons. rewrite Hcons in Hd. split; [done|].
    intros acts s' Hrun.
    assert (HI' : Inv s')
      by (apply Reachable_Inv; eauto using run_Reachable).
    destruct (run_after_consumed acts s s') as (Hc' & Hd' & Hl' & Hu');
      [by apply Reachable_Inv|done|done|].
    split; [done|]. split.
    + intros El. split; [auto|]. apply exec_LifetimeTimer_blocked; auto.
    + intros Eu. split; [auto|]. intros c.
      apply exec_UsageTimer_blocked; auto.
Qed.

Lemma shutdown_reason_delivery_witness :
  Reachable state_lifetime_loses
  ∧ cap (shutdownServer state_lifetime_loses) = 0%nat
  ∧ coord state_lifetime_loses = CRequest ShutdownReason.Usage
  ∧ delivered state_lifetime_loses = [ShutdownReason.Usage]
  ∧ lifetimeTimer state_lifetime_loses = LSend
  ∧ ∀ acts s', run acts state_lifetime_loses = Some s' →
      delivered s' = [ShutdownReason.Usage]
      ∧ lifetimeTimer s' = LSend
      ∧ exec LifetimeTimer s' = None.
Proof.
  assert (Hreach : Reachable state_lifetime_loses).
  { apply (run_Reachable acts_lifetime_loses initialState);
      [apply Reachable_init | vm_compute; reflexivity]. }
  destruct (shutdown_reason_delivery state_lifetime_loses Hreach)
    as (Hcap & Hr & _ & Hc).
  split; [exact Hreach|]. split; [exact Hcap|].
  split; [vm_compute; reflexivity|]. split; [vm_compute; reflexivity|].
  split; [vm_compute; reflexivity|].
  intros acts s' Hrun.
  destruct Hc as [_ Hc]; [vm_compute; reflexivity|].
  destruct (Hc acts s' Hrun) as (Hd & Hl & _).
  destruct Hl as [Hl1 Hl2]; [vm_compute; reflexivity|].
  split; [exact Hd|]. split; [exact Hl1|exact Hl2].
Defined.

(** C4, counterexample: the channel has capacity 0, and when the
    coordinator has received [Usage], the send of [startLifetimeTimer]
    cannot be taken. *)
Lemma losing_timer_send_blocks :
  cap (shutdownServer initialState) = 0%nat
  ∧ ∃ s, run acts_lifetime_loses initialState = Some s
         ∧ cap (shutdownServer s) = 0%nat
         ∧ coord s = CRequest ShutdownReason.Usage
         ∧ lifetimeTimer s = LSend
         ∧ exec LifetimeTimer s = None.
Proof.
  split; [reflexivity|]. eexists. split; [vm_compute; reflexivity|].
  repeat split.
Qed.

(** In every state the process can reach, the timer of [startUsageTimer]
    is due 15 minutes after the start, and the case of [connectionChan]
    cannot be taken. *)
Lemma usage_timer_never_reset s d :
  Reachable s → usageTimer s = USelect d →
  d = usageTimeoutMinutes * time.Minute
  ∧ exec (UsageTimer CaseConnection) s = None.
Proof.
  intros [_ _ Hc _ Hu _ _]%Reachable_Inv Eu. split; [by apply Hu|].
  unfold exec. destruct (coord s); try done; simpl;
    unfold startUsageTimer_step; by rewrite Eu, Hc.
Qed.

(** C5, on the code: stream "a" is registered 10 minutes after the start.
    The timer of [startUsageTimer] is still due at minute 15, its
    [connectionChan] case cannot be taken, and at minute 15, five minutes
    after the admission, it fires with reason [Usage] and the coordinator
    sets [ShutdownRequested]. *)
Theorem usage_timer_fires_15_minutes_after_start :
  ∃ s1 s2,
    run acts_register_at_10 initialState = Some s1
    ∧ now s1 = 10 * time.Minute
    ∧ procs s1 = [TRunning "a" conn_a (10 * time.Minute)]
    ∧ connections (world s1) !! "a" = Some conn_a
    ∧ usageTimer s1 = USelect (15 * time.Minute)
    ∧ exec (UsageTimer CaseConnection) s1 = None
    ∧ exec (UsageTimer CaseTimer) s1 = None
    ∧ run acts_fire_at_15 s1 = Some s2
    ∧ now s2 = 15 * time.Minute
    ∧ usageTimer s2 = UDone
    ∧ delivered s2 = [ShutdownReason.Usage]
    ∧ status (world s2) = InstanceStatus.ShutdownRequested.
Proof.
  eexists _, _. split; [vm_compute; reflexivity|].
  split; [reflexivity|]. split; [reflexivity|].
  split; [vm_compute; reflexivity|]. split; [reflexivity|].
  split; [vm_compute; reflexivity|]. split; [vm_compute; reflexivity|].
  split; [vm_compute; reflexivity|]. repeat split.
Qed.

(** * Further properties of the functions *)

(** X1: a request whose body does not decode is answered 400, a request
    whose target cannot be dialled is answered 500. In both cases
    [handleNewStream] returns without starting a goroutine, and leaves the
    registry, the wait group and the status as they were; it has only
    taken and released [connectionsMux]. *)
Theorem handleNewStream_rejects body net_Dial rw w :
  connectionsMux w = false →
  (∀ UUID URL, body = Decoded UUID URL → ∃ e, net_Dial URL = DialError e) →
  handleNewStream body net_Dial rw w =
    Done (rw ++ [match body with
                 | DecodeError _ =>
                     HttpError "Invalid request body" http.StatusBadRequest
                 | Decoded _ _ =>
                     HttpError "Unable to connect to stream"
                       http.StatusInternalServerError
                 end], None) (rejected w)
  ∧ connections (rejected w) = connections w
  ∧ wg (rejected w) = wg w
  ∧ status (rejected w) = status w
  ∧ connectionsMux (rejected w) = false
  ∧ trace (rejected w) =
      trace w ++ [EvLock ConnectionsMux; EvUnlock ConnectionsMux].
Proof.
  intros Hfree Hdial. split.
  - unfold handleNewStream, handleNewStream_register, bind, Lock, Unlock, ret,
      http_Error. cbn [held]. rewrite Hfree.
    destruct body as [UUID URL|e]; [|done].
    destruct (Hdial UUID URL eq_refl) as [e ->]. done.
  - repeat split; simpl. by rewrite <- app_assoc.
Qed.

Lemma handleNewStream_rejects_witness :
  connectionsMux initialWorld = false
  ∧ handleNewStream (Decoded "a" "10.0.0.9:1935")
      (λ _, DialError "connection refused") [] initialWorld =
      Done ([HttpError "Unable to connect to stream" 500], None)
        (rejected initialWorld)
  ∧ size (connections (rejected initialWorld)) = 0%nat
  ∧ wg (rejected initialWorld) = 0.
Proof.
  split; [reflexivity|].
  destruct (handleNewStream_rejects (Decoded "a" "10.0.0.9:1935")
              (λ _, DialError "connection refused") [] initialWorld)
    as (Hrun & _ & Hwg & _); [reflexivity| |].
  - intros UUID URL _. by exists "connection refused".
  - split; [exact Hrun|]. split; [reflexivity|exact Hwg].
Defined.

(** X2: [handleNewStream] releases [connectionsMux] on each of its three
    return paths, and never touches [statusMux] or [status]: started with
    the mutex free, it returns with the mutex free whatever the body and
    whatever [net.Dial] answers. *)
Theorem handleNewStream_releases_connectionsMux body net_Dial rw w :
  connectionsMux w = false → 0 ≤ wg w →
  ∃ r w', handleNewStream body net_Dial rw w = Done r w'
          ∧ connectionsMux w' = false
          ∧ statusMux w' = statusMux w
          ∧ status w' = status w
          ∧ trace w' =
              trace w ++ [EvLock ConnectionsMux; EvUnlock ConnectionsMux].
Proof.
  intros Hfree Hwg.
  unfold handleNewStream, handleNewStream_register, bind, Lock, Unlock, ret,
    modify, wg_Add. cbn [held]. rewrite Hfree.
  destruct body as [UUID URL|e]; [destruct (net_Dial URL) as [conn|e]|];
    simpl; try (case_decide; [lia|]);
    (eexists _, _; split; [reflexivity|]); simpl;
    repeat (split; [done|]); by rewrite <- app_assoc.
Qed.

Lemma handleNewStream_releases_connectionsMux_witness :
  connectionsMux world_with_a = false
  ∧ 0 ≤ wg world_with_a
  ∧ ∃ r w', handleNewStream (DecodeError "unexpected EOF") (envDial okEnv) []
              world_with_a = Done r w'
            ∧ connectionsMux w' = false
            ∧ statusMux w' = statusMux world_with_a
            ∧ status w' = status world_with_a
            ∧ trace w' = trace world_with_a
                         ++ [EvLock ConnectionsMux; EvUnlock ConnectionsMux].
Proof.
  split; [reflexivity|]. split; [done|].
  apply (handleNewStream_releases_connectionsMux (DecodeError "unexpected EOF")
           (envDial okEnv) [] world_with_a); [reflexivity|done].
Defined.

(** X3: [requestShutdown] sets [status] to [ShutdownRequested] and returns
    what the round trip returned. The request it sends is a POST to the
    update-status endpoint whose query has exactly the keys [reason] and
    [status], with the reason of the timer and "ShutdownRequested" as
    their single values. *)
Theorem requestShutdown_request rt reason w :
  statusMux w = false →
  ∃ w', requestShutdown rt reason w = Done (SendRequest_err rt) w'
        ∧ status w' = InstanceStatus.ShutdownRequested
        ∧ statusMux w' = false
        ∧ connections w' = connections w
        ∧ wg w' = wg w
        ∧ if attempted rt
          then trace w' !! S (length (trace w)) =
                 Some (EvDo "POST"
                         (MkURL "http://localhost:8080/update-status"
                            (<["status" := ["ShutdownRequested"]]>
                               (<["reason" :=
                                    [ShutdownReason.to_string reason]]> ∅))))
          else ∀ method u, EvDo method u ∉ drop (length (trace w)) (trace w').
Proof.
  intros Hfree.
  unfold requestShutdown, updateStatusAndSendRequest, bind, Lock, modify.
  cbn [held]. rewrite Hfree. cbv zeta.
  assert (Hq : Values.Add "status"
                 (InstanceStatus.to_string InstanceStatus.ShutdownRequested)
                 (default ∅
                    (Some (Values.Add "reason"
                             (ShutdownReason.to_string reason) ∅)))
               = <["status" := ["ShutdownRequested"]]>
                   (<["reason" := [ShutdownReason.to_string reason]]> ∅)).
  { unfold Values.Add. simpl. rewrite lookup_empty. simpl.
    by rewrite lookup_insert_ne, lookup_empty. }
  rewrite Hq. clear Hq.
  destruct rt as [e|e|e|code st]; unfold_go; simpl;
    try case_decide; simpl;
    (eexists; split; [reflexivity|]); simpl;
    repeat (split; [done|]);
    rewrite <- ?app_assoc; simpl;
    first [ rewrite lookup_app_r by (simpl; lia);
            by replace (S (length (trace w)) - length (trace w))%nat
                 with 1%nat by lia
          | intros method u; rewrite drop_app_length;
            intros Hin; repeat (apply elem_of_cons in Hin as [Hin|Hin];
                                [discriminate|]);
            by apply elem_of_nil in Hin ].
Qed.

Lemma requestShutdown_request_witness :
  statusMux initialWorld = false
  ∧ ∃ w', requestShutdown (DoError "connection refused")
            ShutdownReason.Lifetime initialWorld
          = Done (Some "connection refused") w'
          ∧ status w' = InstanceStatus.ShutdownRequested
          ∧ statusMux w' = false
          ∧ connections w' = connections initialWorld
          ∧ wg w' = wg initialWorld
          ∧ trace w' !! 1%nat =
              Some (EvDo "POST"
                      (MkURL "http://localhost:8080/update-status"
                         (<["status" := ["ShutdownRequested"]]>
                            (<["reason" := ["lifetime"]]> ∅)))).
Proof.
  split; [reflexivity|].
  apply (requestShutdown_request (DoError "connection refused")
           ShutdownReason.Lifetime initialWorld).
  reflexivity.
Defined.

(** X4: whatever the completion request to the control plane returns, the
    goroutine of a stream goes to its end: it deletes the key of the remote
    address, sends (when the request can be built) a POST to the complete
    endpoint whose query is the single key [uuid] with the id of the
    stream, releases [connectionsMux] last and lowers the wait group by
    one; [status] is untouched. *)
Theorem stream_goroutine_completes rt UUID conn w :
  connectionsMux w = false → 1 ≤ wg w →
  ∃ w', handleNewStream_func1 rt UUID conn w = Done tt w'
        ∧ connections w' = delete (RemoteAddr conn) (connections w)
        ∧ wg w' = wg w - 1
        ∧ status w' = status w
        ∧ connectionsMux w' = false
        ∧ trace w' !! length (trace w) = Some (EvLock ConnectionsMux)
        ∧ last (trace w') = Some (EvUnlock ConnectionsMux)
        ∧ if attempted rt
          then trace w' !! S (length (trace w)) =
                 Some (EvDo "POST"
                         (MkURL "http://localhost:8080/complete"
                            (<["uuid" := [UUID]]> ∅)))
          else ∀ method u, EvDo method u ∉ drop (length (trace w)) (trace w').
Proof.
  intros Hfree Hwg.
  unfold handleNewStream_func1, handleNewStream_func1_complete,
    connectionComplete, bind, Lock, modify. cbn [held]. rewrite Hfree.
  assert (Hq : Values.Add "uuid" UUID ∅ = <["uuid" := [UUID]]> ∅).
  { unfold Values.Add. by rewrite lookup_empty. }
  rewrite Hq. clear Hq.
  destruct rt as [e|e|e|code st]; unfold_go; simpl;
    repeat (case_decide; simpl); try lia;
    (eexists; split; [reflexivity|]); simpl;
    (split; [done|]); (split; [lia|]); (split; [done|]); (split; [done|]);
    rewrite <- ?app_assoc; simpl;
    (split; [by rewrite lookup_app_r, Nat.sub_diag by lia|]);
    (split; [by rewrite last_app|]);
    first [ rewrite lookup_app_r by (simpl; lia);
            by replace (S (length (trace w)) - length (trace w))%nat
                 with 1%nat by lia
          | intros method u; rewrite drop_app_length;
            intros Hin; repeat (apply elem_of_cons in Hin as [Hin|Hin];
                                [discriminate|]);
            by apply elem_of_nil in Hin ].
Qed.

Lemma stream_goroutine_completes_witness :
  connectionsMux (registered "a" conn_a initialWorld) = false
  ∧ 1 ≤ wg (registered "a" conn_a initialWorld)
  ∧ ∃ w', handleNewStream_func1 (DoError "connection refused") "a" conn_a
            (registered "a" conn_a initialWorld) = Done tt w'
          ∧ connections w' =
              delete "10.0.0.1:1935"
                (connections (registered "a" conn_a initialWorld))
          ∧ wg w' = 0
          ∧ connectionsMux w' = false
          ∧ last (trace w') = Some (EvUnlock ConnectionsMux)
          ∧ trace w' !! 3%nat =
              Some (EvDo "POST"
                      (MkURL "http://localhost:8080/complete"
                         (<["uuid" := ["a"]]> ∅))).
Proof.
  split; [reflexivity|]. split; [done|].
  destruct (stream_goroutine_completes (DoError "connection refused") "a"
              conn_a (registered "a" conn_a initialWorld))
    as (w' & Hrun & Hconn & Hw & _ & Hmux & _ & Hlast & Hdo);
    [reflexivity|done|].
  exists w'. split; [exact Hrun|]. split; [exact Hconn|].
  split; [exact Hw|]. split; [exact Hmux|]. split; [exact Hlast|exact Hdo].
Defined.

(** X5: [getStatus] reads the size of the registry under [statusMux], not
    under [connectionsMux]: it returns also while [connectionsMux] is held
    by a handler, it takes and releases [statusMux] only, it calls
    [json.Marshal] after the release, and it changes neither the status,
    the registry, the wait group nor the state of [connectionsMux]. *)
Theorem getStatus_takes_statusMux_only json_Marshal rw w :
  statusMux w = false →
  ∃ rw' w', getStatus json_Marshal rw w = Done rw' w'
            ∧ status w' = status w
            ∧ connections w' = connections w
            ∧ wg w' = wg w
            ∧ connectionsMux w' = connectionsMux w
            ∧ statusMux w' = false
            ∧ trace w' =
                trace w ++ [EvLock StatusMux; EvUnlock StatusMux]
                ++ match (json_Marshal
                            (<["streams" := pretty (size (connections w))]>
                               (<["status" :=
                                    InstanceStatus.to_string (status w)]> ∅))).2
                   with
                   | Some e => [EvLog (LogErrorMarshallingStatus e)]
                   | None => []
                   end.
Proof.
  intros Hfree. unfold getStatus, bind, Lock, get, Unlock.
  cbn [held]. rewrite Hfree. simpl.
  destruct (json_Marshal _) as [jsonPayload [e|]]; unfold_go; simpl;
    (eexists _, _; split; [reflexivity|]); simpl;
    repeat (split; [done|]); by rewrite <- ?app_assoc.
Qed.

Lemma getStatus_takes_statusMux_only_witness :
  statusMux (set_held ConnectionsMux true world_with_a) = false
  ∧ connectionsMux (set_held ConnectionsMux true world_with_a) = true
  ∧ ∃ rw' w', getStatus (λ _, ([], None)) []
                (set_held ConnectionsMux true world_with_a) = Done rw' w'
              ∧ connectionsMux w' = true
              ∧ statusMux w' = false
              ∧ trace w' = [EvLock StatusMux; EvUnlock StatusMux].
Proof.
  split; [reflexivity|]. split; [reflexivity|].
  destruct (getStatus_takes_statusMux_only (λ _, ([], None)) []
              (set_held ConnectionsMux true world_with_a))
    as (rw' & w' & Hrun & _ & _ & _ & Hc & Hs & Htr); [reflexivity|].
  exists rw', w'. split; [exact Hrun|]. split; [exact Hc|].
  split; [exact Hs|]. rewrite Htr. reflexivity.
Defined.

(** * Further properties of the process *)

Lemma posts_app tr1 tr2 : posts (tr1 ++ tr2) = posts tr1 ++ posts tr2.
Proof. apply List.filter_app. Qed.

Ltac effect_crunch :=
  let w := fresh "w" in
  intros w ? ? Hrun [Hs Hc]; destruct w; unfold_go;
  simpl in *; simplify_eq/=;
  repeat (first [case_match | case_decide]; simplify_eq/=);
  (split; [done|]); rewrite <- ?app_assoc;
  first [ by exists []; rewrite app_nil_r
        | eexists; split; [reflexivity|]; by split ].

Lemma effect_startServer_startup rt :
  effect (startServer_startup rt) (Some InstanceStatus.Running).
Proof. effect_crunch. Qed.

Lemma effect_startServer_request rt r :
  effect (startServer_request rt r) (Some InstanceStatus.ShutdownRequested).
Proof. effect_crunch. Qed.

Lemma effect_startServer_count : effect startServer_count None.
Proof. effect_crunch. Qed.

Lemma effect_startServer_confirm rt :
  effect (startServer_confirm rt) (Some InstanceStatus.ShuttingDown).
Proof. effect_crunch. Qed.

Lemma effect_logger l : effect (logger l) None.
Proof. effect_crunch. Qed.

Lemma effect_wg_Wait : effect wg_Wait None.
Proof. effect_crunch. Qed.

Lemma effect_wg_Add δ : effect (wg_Add δ) None.
Proof. effect_crunch. Qed.

Lemma effect_wg_Done : effect wg_Done None.
Proof. effect_crunch. Qed.

Lemma effect_handleNewStream_register body dial rw :
  effect (handleNewStream_register body dial rw) None.
Proof. effect_crunch. Qed.

Lemma effect_handleNewStream_func1_complete rt UUID conn :
  effect (handleNewStream_func1_complete rt UUID conn) None.
Proof. effect_crunch. Qed.

Lemma effect_getStatus json_Marshal rw :
  effect (getStatus json_Marshal rw) None.
Proof. effect_crunch. Qed.

Lemma perform_effect {A} (m : M A) st s a s' :
  effect m st → perform m s = Some (a, s') → locks_free (world s) →
  ∃ w' evs, s' = set_world w' s
            ∧ status w' = default (status (world s)) st
            ∧ trace w' = trace (world s) ++ evs
            ∧ posts evs = []
            ∧ holder evs = Some None.
Proof.
  intros Hm (w' & Hrun & ->)%perform_Some Hfree.
  destruct (Hm _ _ _ Hrun Hfree) as (? & evs & ? & ? & ?). eauto 10.
Qed.

Create HintDb effects.
#[local] Hint Resolve effect_startServer_startup effect_startServer_request
  effect_startServer_count effect_startServer_confirm effect_logger
  effect_wg_Wait effect_wg_Add effect_wg_Done
  effect_handleNewStream_register effect_handleNewStream_func1_complete
  effect_getStatus : effects.

Ltac use_effects :=
  repeat match goal with
  | H : (_ * State)%type |- _ => destruct H as [? ?]
  | H : perform _ _ = Some _ |- _ =>
      eapply perform_effect in H as (? & ? & -> & ? & ? & ? & ?);
        [ | solve [eauto with effects] | done ]
  end.

Lemma startServer_stop_Done shutdownErr w :
  ∃ w' evs, startServer_stop shutdownErr w = Done tt w'
        ∧ status w' = status w
        ∧ trace w' = trace w ++ evs
        ∧ posts evs =
            match shutdownErr with
            | Some err =>
                [EvPost "http://localhost:8080/notify" "application/json"
                   (<["message" := err]>
                      (<["reason" := "Server Shutdown Failed"]> ∅))]
            | None => []
            end
        ∧ holder evs = Some None.
Proof.
  destruct shutdownErr as [err|]; unfold_go; simpl;
    (eexists _, _; split; [reflexivity|]); simpl;
    rewrite <- ?app_assoc; (split; [done|]); by split.
Qed.

Lemma Inv2_init : Inv2 initialState.
Proof. split; try done. intros H. destruct (H _ eq_refl). Qed.

Ltac solve_posts :=
  simpl in *;
  repeat match goal with
  | H : trace ?x = _ ++ _ |- context [trace ?x] => rewrite H
  end;
  rewrite ?posts_app;
  repeat match goal with H : posts _ = [] |- _ => rewrite H end;
  repeat case_match; first [done | by left | congruence].

Lemma exec_Inv2 a s s' : Inv s → Inv2 s → exec a s = Some s' → Inv2 s'.
Proof.
  intros [Hl Hs Hc _ Hu _ _] [Hst Hnow Hlt Hut Hp]
    [Hne Hexec]%exec_dispatch.
  assert (Hp0 : posts (trace (world s)) = []) by (by destruct (coord s)).
  clear Hp.
  destruct a as [d|e| |c|body|i e|m]; simpl in Hexec.
  - (* Tick *)
    case_decide; simplify_eq. split; simpl; try done; try lia.
    + intros H'. specialize (Hlt H'). lia.
    + intros H'. specialize (Hut H'). lia.
    + by destruct (coord s).
  - (* Coordinator *)
    unfold startServer_step in Hexec. rewrite Hs in Hexec.
    destruct (coord s) eqn:Ec; try done.
    1-5: simplify_option_eq; use_effects; simplify_eq;
      split; simpl in *; try done; try congruence; solve_posts.
    destruct (perform (startServer_stop (envShutdown e)) s)
      as [[[] s1]|] eqn:E; [|done].
    apply perform_Some in E as (w' & E & ->). simplify_eq/=.
    destruct (startServer_stop_Done (envShutdown e) (world s))
      as (w1 & evs & E1 & Hst1 & Htr1 & Hp1 & Hh1).
    rewrite E1 in E. injection E as <-.
    split; simpl; try done; try congruence.
    rewrite Htr1, posts_app, Hp1, Hp0. destruct (envShutdown e); eauto.
  - (* startLifetimeTimer *)
    unfold startLifetimeTimer_step in Hexec.
    destruct (lifetimeTimer s) eqn:El; [| |done].
    + case_decide; [|done]. simplify_option_eq.
      split; simpl; try done.
      rewrite posts_app, Hp0. by destruct (coord s).
    + destruct (send_shutdown ShutdownReason.Lifetime s) as [s1|] eqn:Esend;
        [|done].
      apply send_shutdown_Some in Esend as [Ec ->]; [|done].
      simplify_eq/=. rewrite Ec in Hst.
      split; simpl; try done. intros _. apply Hlt. by rewrite ?El.
  - (* startUsageTimer *)
    unfold startUsageTimer_step in Hexec. rewrite Hc in Hexec.
    destruct (usageTimer s) eqn:Eu; [| |done].
    + destruct c; [done|]. case_decide; [|done]. simplify_eq.
      split; simpl; try done.
      * intros _. rewrite (Hu _ eq_refl) in *. done.
      * by destruct (coord s).
    + destruct (send_shutdown ShutdownReason.Usage s) as [s1|] eqn:Esend;
        [|done].
      apply send_shutdown_Some in Esend as [Ec ->]; [|done].
      simplify_option_eq. rewrite Ec in Hst.
      split; simpl; try done.
      * intros _. apply Hut. intros d. by rewrite ?Eu.
      * by rewrite posts_app, Hp0.
  - (* a request arrives *)
    simplify_eq. split; simpl; try done. by destruct (coord s).
  - (* handleNewStream and its goroutine *)
    destruct (procs s !! i) as [p|] eqn:Ep; [|done]. simpl in Hexec.
    destruct (handleNewStream_step e p s) as [[p' s1]|] eqn:Estep; [|done].
    simplify_eq/=.
    destruct p; simpl in Estep; simplify_option_eq; use_effects;
      repeat case_match; simplify_eq;
      (split; simpl in *; try done; try congruence); solve_posts.
  - (* getStatus *)
    destruct (perform (getStatus m []) s) as [[rw s1]|] eqn:E; [|done].
    use_effects. simplify_eq/=.
    split; simpl in *; try done; try congruence. solve_posts.
Qed.

Lemma Reachable_Inv2 s : Reachable s → Inv2 s.
Proof.
  induction 1; eauto using Inv2_init, exec_Inv2, Reachable_Inv.
Qed.

Lemma holder_nil : holder [] = Some None.
Proof. reflexivity. Qed.

(** What one step does: it adds events in which the mutex events are
    paired, and it moves neither the coordinator nor the clock back. *)
Lemma exec_step a s s' :
  Inv s → exec a s = Some s' →
  (∃ evs, trace (world s') = trace (world s) ++ evs
          ∧ holder evs = Some None)
  ∧ (pc_index (coord s) ≤ pc_index (coord s'))%nat
  ∧ now s ≤ now s'.
Proof.
  intros [Hl Hs Hc _ _ _ _] [Hne Hexec]%exec_dispatch.
  destruct a as [d|e| |c|body|i e|m]; simpl in Hexec.
  - case_decide; simplify_eq/=. split; [|split; [done|lia]].
    exists []. by rewrite app_nil_r.
  - unfold startServer_step in Hexec. rewrite Hs in Hexec.
    destruct (coord s) eqn:Ec; try done.
    1-5: simplify_option_eq; use_effects; simplify_eq/=;
      rewrite ?Ec; (split; [eauto|split; [simpl; lia|done]]).
    destruct (perform (startServer_stop (envShutdown e)) s)
      as [[[] s1]|] eqn:E; [|done].
    apply perform_Some in E as (w' & E & ->). simplify_eq/=.
    destruct (startServer_stop_Done (envShutdown e) (world s))
      as (w1 & evs & E1 & _ & Htr1 & _ & Hh1).
    rewrite E1 in E. injection E as <-. rewrite ?Ec.
    split; [eauto|split; [simpl; lia|done]].
  - unfold startLifetimeTimer_step in Hexec.
    destruct (lifetimeTimer s) eqn:El; [| |done].
    + case_decide; [|done]. simplify_option_eq.
      split; [eexists; split; [reflexivity|done]|done].
    + destruct (send_shutdown ShutdownReason.Lifetime s) as [s1|] eqn:Esend;
        [|done].
      apply send_shutdown_Some in Esend as [Ec ->]; [|done].
      simplify_eq/=. rewrite ?Ec. split; [|split; [simpl; lia|done]].
      exists []. by rewrite app_nil_r.
  - unfold startUsageTimer_step in Hexec. rewrite Hc in Hexec.
    destruct (usageTimer s) eqn:Eu; [| |done].
    + destruct c; [done|]. case_decide; [|done]. simplify_eq/=.
      split; [|done]. exists []. by rewrite app_nil_r.
    + destruct (send_shutdown ShutdownReason.Usage s) as [s1|] eqn:Esend;
        [|done].
      apply send_shutdown_Some in Esend as [Ec ->]; [|done].
      simplify_option_eq. rewrite ?Ec.
      split; [eexists; split; [reflexivity|done]|split; [simpl; lia|done]].
  - simplify_eq/=. split; [|done]. exists []. by rewrite app_nil_r.
  - destruct (procs s !! i) as [p|] eqn:Ep; [|done]. simpl in Hexec.
    destruct (handleNewStream_step e p s) as [[p' s1]|] eqn:Estep; [|done].
    simplify_eq/=.
    destruct p; simpl in Estep; simplify_option_eq; use_effects;
      repeat case_match; simplify_eq/=;
      (split; [|done]);
      first [ by eauto | exists []; by rewrite app_nil_r ].
  - destruct (perform (getStatus m []) s) as [[rw s1]|] eqn:E; [|done].
    use_effects. simplify_eq/=. split; [eauto|done].
Qed.

Lemma run_step acts s s' :
  Inv s → run acts s = Some s' →
  (pc_index (coord s) ≤ pc_index (coord s'))%nat ∧ now s ≤ now s'.
Proof.
  revert s. induction acts as [|a acts IH]; intros s HI Hrun;
    simplify_eq/=; [done|].
  destruct (exec a s) as [s1|] eqn:E; simplify_eq/=.
  destruct (exec_step _ _ _ HI E) as (_ & Hpc & Hnow).
  destruct (IH s1) as [? ?]; eauto using exec_Inv. split; lia.
Qed.

Ltac proceeds_crunch :=
  let w := fresh "w" in
  intros w [Hs Hc]; destruct w; unfold_go; simpl in *; subst; simpl;
  repeat (first [case_match | case_decide]; simplify_eq/=); eauto.

Lemma proceeds_startServer_startup rt : proceeds (startServer_startup rt).
Proof. proceeds_crunch. Qed.

Lemma proceeds_startServer_request rt r : proceeds (startServer_request rt r).
Proof. proceeds_crunch. Qed.

Lemma proceeds_startServer_count : proceeds startServer_count.
Proof. proceeds_crunch. Qed.

Lemma proceeds_startServer_confirm rt : proceeds (startServer_confirm rt).
Proof. proceeds_crunch. Qed.

Lemma proceeds_startServer_stop err : proceeds (startServer_stop err).
Proof. proceeds_crunch. Qed.

Lemma proceeds_handleNewStream_register body dial rw :
  proceeds (handleNewStream_register body dial rw).
Proof. proceeds_crunch. Qed.

Lemma proceeds_handleNewStream_func1_complete rt UUID conn :
  proceeds (handleNewStream_func1_complete rt UUID conn).
Proof. proceeds_crunch. Qed.

Lemma perform_proceeds {A} (m : M A) s :
  proceeds m → locks_free (world s) → ∃ a s', perform m s = Some (a, s').
Proof.
  intros Hm Hfree. destruct (Hm _ Hfree) as (a & w' & E).
  unfold perform. rewrite E. eauto.
Qed.

Lemma inflight_lookup ps i p :
  ps !! i = Some p → running p = true → (1 ≤ inflight ps)%nat.
Proof.
  revert i. induction ps as [|q ps IH]; intros [|i] Hi Hr; simplify_eq/=.
  - rewrite Hr. lia.
  - specialize (IH _ Hi Hr). lia.
Qed.

(** X6: in every state the process can reach, [status] is the one that
    [startServer] has last assigned on its way: [Inactive] before
    [confirmStartup], [Running] until [requestShutdown],
    [ShutdownRequested] until [confirmShutdown], [ShuttingDown] from then
    on. No other function changes it, and it is never [Starting] nor
    [ShutdownFailed]. *)
Theorem status_follows_coordinator s :
  Reachable s →
  status (world s) = status_at (coord s)
  ∧ status (world s) ≠ InstanceStatus.Starting
  ∧ status (world s) ≠ InstanceStatus.ShutdownFailed.
Proof.
  intros [Hst _ _ _ _]%Reachable_Inv2. rewrite Hst.
  by destruct (coord s).
Qed.

Lemma status_follows_coordinator_witness :
  Reachable state_drain_busy
  ∧ coord state_drain_busy = CDrain
  ∧ status (world state_drain_busy) = InstanceStatus.ShutdownRequested
  ∧ status (world state_drain_busy) ≠ InstanceStatus.Starting
  ∧ status (world state_drain_busy) ≠ InstanceStatus.ShutdownFailed.
Proof.
  assert (Hreach : Reachable state_drain_busy).
  { apply (run_Reachable acts_drain_busy initialState);
      [apply Reachable_init | vm_compute; reflexivity]. }
  destruct (status_follows_coordinator state_drain_busy Hreach)
    as (Hst & Hn1 & Hn2).
  split; [exact Hreach|]. split; [vm_compute; reflexivity|].
  split; [|split; [exact Hn1|exact Hn2]].
  rewrite Hst. vm_compute; reflexivity.
Defined.

Lemma status_at_mono c c' :
  (pc_index c ≤ pc_index c')%nat →
  (status_index (status_at c) ≤ status_index (status_at c'))%nat.
Proof. destruct c, c'; simpl; lia. Qed.

(** X7: the status never goes back. Along every run of the process, from
    any state it can reach, the status at the end is the status at the
    start or a later one in the order of the constants, and the clock has
    not gone back. *)
Theorem status_never_goes_back acts s s' :
  Reachable s → run acts s = Some s' →
  (status_index (status (world s)) ≤ status_index (status (world s')))%nat
  ∧ now s ≤ now s'.
Proof.
  intros Hreach Hrun.
  assert (Hreach' : Reachable s') by eauto using run_Reachable.
  destruct (run_step acts s s') as [Hpc Hnow];
    [by apply Reachable_Inv|done|].
  apply Reachable_Inv2 in Hreach as [-> _ _ _ _].
  apply Reachable_Inv2 in Hreach' as [-> _ _ _ _].
  split; [by apply status_at_mono|done].
Qed.

Lemma status_never_goes_back_witness :
  Reachable state_lifetime_loses
  ∧ run [Coordinator okEnv; Coordinator okEnv; Coordinator okEnv;
         Coordinator okEnv] state_lifetime_loses
    = Some (default initialState
              (run [Coordinator okEnv; Coordinator okEnv; Coordinator okEnv;
                    Coordinator okEnv] state_lifetime_loses))
  ∧ status (world state_lifetime_loses) = InstanceStatus.Running
  ∧ (status_index (status (world state_lifetime_loses))
     ≤ status_index
         (status
            (world
               (default initialState
                  (run [Coordinator okEnv; Coordinator okEnv;
                        Coordinator okEnv; Coordinator okEnv]
                     state_lifetime_loses)))))%nat.
Proof.
  assert (Hreach : Reachable state_lifetime_loses).
  { apply (run_Reachable acts_lifetime_loses initialState);
      [apply Reachable_init | vm_compute; reflexivity]. }
  assert (Hrun : run [Coordinator okEnv; Coordinator okEnv; Coordinator okEnv;
                      Coordinator okEnv] state_lifetime_loses
                 = Some (default initialState
                           (run [Coordinator okEnv; Coordinator okEnv;
                                 Coordinator okEnv; Coordinator okEnv]
                              state_lifetime_loses)))
    by (vm_compute; reflexivity).
  split; [exact Hreach|]. split; [exact Hrun|].
  split; [vm_compute; reflexivity|].
  exact (proj1 (status_never_goes_back _ _ _ Hreach Hrun)).
Defined.

Lemma delivered_cases s :
  length (delivered s) = 1%nat →
  (lifetimeTimer s = LDone ∧ delivered s = [ShutdownReason.Lifetime])
  ∨ ((∀ d, usageTimer s ≠ USelect d)
     ∧ delivered s = [ShutdownReason.Usage]).
Proof.
  unfold delivered.
  destruct (lifetimeTimer s), (usageTimer s); simpl; intros; try done;
    by (left + right).
Qed.

(** X8: shutdown is never requested in the first 15 minutes. In every
    state in which the coordinator has received a reason, at least
    [usageTimeoutMinutes] have passed since the start, and at least
    [lifetimeTimeoutHours] when the reason is [Lifetime]. *)
Theorem no_shutdown_before_timeout s :
  Reachable s → consumed (coord s) = true →
  usageTimeoutMinutes * time.Minute ≤ now s
  ∧ (delivered s = [ShutdownReason.Lifetime] →
     lifetimeTimeoutHours * time.Hour ≤ now s).
Proof.
  intros Hreach Hcons.
  destruct (Reachable_Inv s Hreach) as [_ _ _ _ _ Hd _].
  destruct (Reachable_Inv2 s Hreach) as [_ _ Hlt Hut _].
  rewrite Hcons in Hd.
  destruct (delivered_cases s Hd) as [[El Hdl]|[Eu Hdu]].
  - assert (lifetimeTimeoutHours * time.Hour ≤ now s)
      by (apply Hlt; by rewrite El).
    split; [|done]. unfold lifetimeTimeoutHours, usageTimeoutMinutes,
      time.Hour, time.Minute, time.Second in *. lia.
  - split; [by apply Hut|]. by rewrite Hdu.
Qed.

Lemma no_shutdown_before_timeout_witness :
  Reachable state_drain_busy
  ∧ consumed (coord state_drain_busy) = true
  ∧ now state_drain_busy = 15 * time.Minute
  ∧ usageTimeoutMinutes * time.Minute ≤ now state_drain_busy.
Proof.
  assert (Hreach : Reachable state_drain_busy).
  { apply (run_Reachable acts_drain_busy initialState);
      [apply Reachable_init | vm_compute; reflexivity]. }
  split; [exact Hreach|]. split; [vm_compute; reflexivity|].
  split; [vm_compute; reflexivity|].
  apply (no_shutdown_before_timeout state_drain_busy Hreach).
  vm_compute; reflexivity.
Defined.

(** How one step moves the coordinator: not at all, or to the next
    statement by a step of its own, or from the receive of line 271 to the
    handling of the reason a timer has sent. *)
Lemma exec_coord a s s' :
  Inv s → exec a s = Some s' →
  match a with
  | Coordinator _ => coord s' = next_pc (coord s)
  | LifetimeTimer | UsageTimer _ =>
      coord s' = coord s ∨ (coord s = CAwait ∧ ∃ r, coord s' = CRequest r)
  | _ => coord s' = coord s
  end.
Proof.
  intros [Hl Hs Hc _ _ _ _] [Hne Hexec]%exec_dispatch.
  destruct a as [d|e| |c|body|i e|m]; simpl in Hexec.
  - case_decide; by simplify_eq/=.
  - unfold startServer_step in Hexec. rewrite Hs in Hexec.
    destruct (coord s) eqn:Ec; simplify_option_eq;
      repeat match goal with
      | H : (_ * State)%type |- _ => destruct H as [? ?]
      | H : perform _ _ = Some _ |- _ =>
          apply perform_Some in H as (? & _ & ->)
      end; by simplify_eq/=.
  - unfold startLifetimeTimer_step in Hexec.
    destruct (lifetimeTimer s) eqn:El; [| |done].
    + case_decide; [|done]. simplify_option_eq. by left.
    + destruct (send_shutdown ShutdownReason.Lifetime s) eqn:Esend; [|done].
      apply send_shutdown_Some in Esend as [Ec ->]; [|done].
      simplify_eq/=. right. eauto.
  - unfold startUsageTimer_step in Hexec. rewrite Hc in Hexec.
    destruct (usageTimer s) eqn:Eu; [| |done].
    + destruct c; [done|]. case_decide; [|done]. simplify_eq/=. by left.
    + destruct (send_shutdown ShutdownReason.Usage s) eqn:Esend; [|done].
      apply send_shutdown_Some in Esend as [Ec ->]; [|done].
      simplify_option_eq. right. eauto.
  - by simplify_eq/=.
  - destruct (procs s !! i) as [p|] eqn:Ep; [|done]. simpl in Hexec.
    destruct (handleNewStream_step e p s) as [[p' s1]|] eqn:Estep; [|done].
    apply handleNewStream_step_world in Estep as [w' ->].
    by simplify_eq/=.
  - destruct (perform (getStatus m []) s) as [[rw s1]|] eqn:E; [|done].
    apply perform_Some in E as (? & _ & ->). by simplify_eq/=.
Qed.

(** X9: [notifyKubernetes] is called exactly for a failed
    [server.Shutdown]. Before a step of the process the trace holds no
    call of [http.Post]. After the step it holds one exactly when the step
    is the one of lines 288-294 and [server.Shutdown] has returned an
    error: the call to the notify endpoint with the reason "Server
    Shutdown Failed" and that error as the message. After every other
    step, and when [server.Shutdown] has succeeded, it holds none. *)
Theorem notify_only_on_failed_shutdown a s s' :
  Reachable s → exec a s = Some s' →
  posts (trace (world s)) = []
  ∧ posts (trace (world s')) =
      match a, coord s with
      | Coordinator e, CStop =>
          match envShutdown e with
          | Some err =>
              [EvPost "http://localhost:8080/notify" "application/json"
                 (<["message" := err]>
                    (<["reason" := "Server Shutdown Failed"]> ∅))]
          | None => []
          end
      | _, _ => []
      end.
Proof.
  intros Hreach Hexec.
  pose proof (Reachable_Inv s Hreach) as HI.
  pose proof (Reachable_Inv2 s Hreach) as [_ _ _ _ Hp].
  pose proof (exec_dispatch _ _ _ Hexec) as [Hne Hdisp].
  assert (Hp0 : posts (trace (world s)) = []) by (by destruct (coord s)).
  split; [done|].
  assert (Hreach' : Reachable s') by eauto using Reachable_step.
  pose proof (Reachable_Inv2 s' Hreach') as [_ _ _ _ Hp'].
  assert (Hother : coord s' ≠ CExited → posts (trace (world s')) = [])
    by (intros ?; by destruct (coord s')).
  pose proof (exec_coord a s s' HI Hexec) as Hc.
  destruct a as [d|e| |c|body|i e|m]; simpl in *.
  - rewrite Hother by congruence. by destruct (coord s).
  - destruct (coord s) eqn:Ec; try (rewrite Hother by (by rewrite Hc); done).
    unfold startServer_step in Hdisp. rewrite Ec in Hdisp.
    destruct (perform (startServer_stop (envShutdown e)) s)
      as [[[] s1]|] eqn:E; [|done].
    apply perform_Some in E as (w' & E & ->). simplify_eq/=.
    destruct (startServer_stop_Done (envShutdown e) (world s))
      as (w1 & evs & E1 & _ & Htr1 & Hp1 & _).
    rewrite E1 in E. injection E as <-.
    by rewrite Htr1, posts_app, Hp0, Hp1.
  - destruct Hc as [Hc|[Hc [r Hr]]];
      [rewrite Hother by congruence|rewrite Hother by (by rewrite Hr)];
      by destruct (coord s).
  - destruct Hc as [Hc|[Hc [r Hr]]];
      [rewrite Hother by congruence|rewrite Hother by (by rewrite Hr)];
      by destruct (coord s).
  - rewrite Hother by congruence. by destruct (coord s).
  - rewrite Hother by congruence. by destruct (coord s).
  - rewrite Hother by congruence. by destruct (coord s).
Qed.

Lemma notify_only_on_failed_shutdown_witness :
  Reachable state_stop
  ∧ coord state_stop = CStop
  ∧ (∃ s', exec (Coordinator failEnv) state_stop = Some s'
           ∧ posts (trace (world s')) =
               [EvPost "http://localhost:8080/notify" "application/json"
                  (<["message" := "context deadline exceeded"]>
                     (<["reason" := "Server Shutdown Failed"]> ∅))])
  ∧ (∃ s', exec (Coordinator okEnv) state_stop = Some s'
           ∧ posts (trace (world s')) = []).
Proof.
  assert (Hreach : Reachable state_stop).
  { apply (run_Reachable (acts_drain_idle ++ [Coordinator okEnv])
             initialState);
      [apply Reachable_init | vm_compute; reflexivity]. }
  assert (Hfail : exec (Coordinator failEnv) state_stop
                  = Some (default initialState
                            (exec (Coordinator failEnv) state_stop)))
    by (vm_compute; reflexivity).
  assert (Hok : exec (Coordinator okEnv) state_stop
                = Some (default initialState
                          (exec (Coordinator okEnv) state_stop)))
    by (vm_compute; reflexivity).
  split; [exact Hreach|]. split; [vm_compute; reflexivity|]. split.
  - eexists. split; [exact Hfail|].
    exact (proj2 (notify_only_on_failed_shutdown _ _ _ Hreach Hfail)).
  - eexists. split; [exact Hok|].
    exact (proj2 (notify_only_on_failed_shutdown _ _ _ Hreach Hok)).
Defined.



Lemma goroutine_step_Some i e p s :
  Inv s → coord s ≠ CExited →
  procs s !! i = Some p → ready p (now s) = true →
  ∃ p' w',
    exec (Goroutine i e) s =
      Some (set_procs (<[i:=p']> (procs s)) (set_world w' s))
    ∧ (∀ UUID conn since,
         p = TRunning UUID conn since → p' = TCompleted UUID conn)
    ∧ (∀ UUID conn, p = TCompleted UUID conn → p' = TExited).
Proof.
  intros [Hl _ _ Hwg _ _ _] Hne Hi Hready.
  assert (∃ p' w', handleNewStream_step e p s = Some (p', set_world w' s)
                   ∧ (∀ UUID conn since,
                        p = TRunning UUID conn since →
                        p' = TCompleted UUID conn)
                   ∧ (∀ UUID conn, p = TCompleted UUID conn → p' = TExited))
    as (p' & w' & Hstep & H1 & H2).
  { destruct p as [body w|UUID conn w|UUID conn w|w|UUID conn since
                  |UUID conn|]; simpl in *; try done.
    - destruct (perform_proceeds _ s
                  (proceeds_handleNewStream_register body (envDial e) w) Hl)
        as ([w1 o] & s1 & E).
      rewrite E. apply perform_Some in E as (w' & _ & ->). simpl.
      destruct o as [[u c]|]; eexists _, _; (split; [reflexivity|done]).
    - eexists _, (world s). rewrite set_world_id.
      split; [reflexivity|done].
    - unfold perform, wg_Add. case_decide; [lia|]. simpl.
      eexists _, _; split; [reflexivity|done].
    - apply bool_decide_eq_true in Hready. case_decide; [|done].
      destruct (perform_proceeds
                  (handleNewStream_func1_complete (envRoundTrip e)
                     UUID conn) s)
        as ([] & s1 & E);
        [apply proceeds_handleNewStream_func1_complete|done|].
      rewrite E. apply perform_Some in E as (w' & _ & ->). simpl.
      eexists _, _; split; [reflexivity|]. split; [|done].
      by intros ??? [= <- <- _].
    - pose proof (inflight_lookup _ _ _ Hi eq_refl).
      unfold perform, wg_Done, wg_Add. case_decide; [lia|]. simpl.
      eexists _, _; split; [reflexivity|done]. }
  exists p', w'. split; [|done].
  unfold exec. destruct (coord s); try done; simpl; rewrite Hi; simpl;
    by rewrite Hstep.
Qed.

Lemma coordinator_step_Some e s :
  Inv s → waits (coord s) = false →
  ∃ w', exec (Coordinator e) s =
          Some (set_coord (next_pc (coord s)) (set_world w' s)).
Proof.
  intros [Hl _ _ _ _ _ _] Hw.
  unfold exec. destruct (coord s) eqn:Ec; try done; simpl;
    unfold startServer_step; rewrite Ec.
  - destruct (perform_proceeds (startServer_startup (envRoundTrip e)) s)
      as ([] & s1 & E); [apply proceeds_startServer_startup|done|].
    rewrite E. apply perform_Some in E as (w' & _ & ->). simpl. eauto.
  - destruct (perform_proceeds
                (startServer_request (envRoundTrip e) shutdownReason) s)
      as ([] & s1 & E); [apply proceeds_startServer_request|done|].
    rewrite E. apply perform_Some in E as (w' & _ & ->). simpl. eauto.
  - destruct (perform_proceeds startServer_count s)
      as ([] & s1 & E); [apply proceeds_startServer_count|done|].
    rewrite E. apply perform_Some in E as (w' & _ & ->). simpl. eauto.
  - destruct (perform_proceeds (startServer_confirm (envRoundTrip e)) s)
      as ([] & s1 & E); [apply proceeds_startServer_confirm|done|].
    rewrite E. apply perform_Some in E as (w' & _ & ->). simpl. eauto.
  - destruct (perform_proceeds (startServer_stop (envShutdown e)) s)
      as ([] & s1 & E); [apply proceeds_startServer_stop|done|].
    rewrite E. apply perform_Some in E as (w' & _ & ->). simpl. eauto.
Qed.

Lemma leads_refl e s : leads e s s.
Proof. by exists []. Qed.

Lemma leads_step e a s s1 s' :
  exec a s = Some s1 → uses e a → leads e s1 s' → leads e s s'.
Proof.
  intros E Ha (acts & Hrun & Hacts). exists (a :: acts).
  split; [simpl; by rewrite E|by constructor].
Qed.

Lemma leads_trans e s s1 s' : leads e s s1 → leads e s1 s' → leads e s s'.
Proof.
  intros (acts1 & H1 & Ha1) (acts2 & H2 & Ha2). exists (acts1 ++ acts2).
  split; [|by apply Forall_app].
  clear Ha1. revert s H1. induction acts1 as [|a acts1 IH]; intros s H1;
    simplify_eq/=; [done|].
  destruct (exec a s) as [s2|] eqn:E; simplify_eq/=. eauto.
Qed.

Lemma leads_Reachable e s s' : Reachable s → leads e s s' → Reachable s'.
Proof. intros Hreach (acts & Hrun & _). eauto using run_Reachable. Qed.

Lemma inflight_pos ps :
  (0 < inflight ps)%nat → ∃ i p, ps !! i = Some p ∧ running p = true.
Proof.
  induction ps as [|q ps IH]; simpl; [lia|].
  destruct (running q) eqn:Eq.
  - intros _. by exists 0%nat, q.
  - intros Hpos. destruct IH as (i & p & Hi & Hr); [lia|].
    by exists (S i), p.
Qed.

Lemma exec_Tick d s :
  coord s ≠ CExited → 0 < d → exec (Tick d) s = Some (set_now (now s + d) s).
Proof.
  intros Hne Hd. unfold exec. destruct (coord s); try done; simpl;
    by case_decide.
Qed.

(** One goroutine that handles a stream can be brought to its end. *)
Lemma finish_one (e : Env) s n :
  Reachable s → coord s ≠ CExited → inflight (procs s) = S n →
  ∃ s', leads e s s' ∧ coord s' = coord s ∧ inflight (procs s') = n.
Proof.
  intros Hreach Hne Hn.
  destruct (inflight_pos (procs s)) as (i & p & Hi & Hr); [lia|].
  destruct p as [| | | |UUID conn since|UUID conn|]; try done.
  - (* the stream is being handled *)
    set (d := Z.max 1 (since + 3 * time.Second - now s)).
    set (s1 := set_now (now s + d) s).
    assert (E1 : exec (Tick d) s = Some s1) by (apply exec_Tick; [done|lia]).
    assert (Hreach1 : Reachable s1) by eauto using Reachable_step.
    destruct (goroutine_step_Some i e (TRunning UUID conn since) s1)
      as (p2 & w2 & E2 & Hp2 & _);
      [by apply Reachable_Inv|done|done|apply bool_decide_eq_true; simpl; lia|].
    rewrite (Hp2 _ _ _ eq_refl) in E2. clear Hp2.
    set (s2 := set_procs (<[i:=TCompleted UUID conn]> (procs s1))
                 (set_world w2 s1)) in *.
    assert (Hreach2 : Reachable s2) by eauto using Reachable_step.
    assert (Hi2 : procs s2 !! i = Some (TCompleted UUID conn)).
    { simpl. apply list_lookup_insert_eq. by eapply lookup_lt_Some. }
    destruct (goroutine_step_Some i e (TCompleted UUID conn) s2)
      as (p3 & w3 & E3 & _ & Hp3);
      [by apply Reachable_Inv|done|done|done|].
    rewrite (Hp3 _ _ eq_refl) in E3. clear Hp3.
    eexists. split.
    { eapply leads_step; [exact E1|done|].
      eapply leads_step; [exact E2|done|].
      eapply leads_step; [exact E3|done|]. apply leads_refl. }
    split; [done|].
    simpl. rewrite list_insert_insert_eq.
    pose proof (inflight_insert (procs s) i _ TExited Hi) as Hins.
    simpl in Hins. lia.
  - (* the stream has been handled *)
    destruct (goroutine_step_Some i e (TCompleted UUID conn) s)
      as (p' & w' & E & _ & Hp');
      [by apply Reachable_Inv|done|done|done|].
    rewrite (Hp' _ _ eq_refl) in E. clear Hp'.
    eexists. split.
    { eapply leads_step; [exact E|done|]. apply leads_refl. }
    split; [done|].
    simpl. pose proof (inflight_insert (procs s) i _ TExited Hi) as Hins.
    simpl in Hins. lia.
Qed.

Lemma finish_all (e : Env) n s :
  Reachable s → coord s ≠ CExited → inflight (procs s) = n →
  ∃ s', leads e s s' ∧ coord s' = coord s ∧ inflight (procs s') = 0%nat.
Proof.
  revert s. induction n as [|n IH]; intros s Hreach Hne Hn.
  - exists s. split; [apply leads_refl|done].
  - destruct (finish_one e s n Hreach Hne Hn) as (s1 & H1 & Hc1 & Hn1).
    destruct (IH s1) as (s2 & H2 & Hc2 & Hn2);
      [eauto using leads_Reachable|congruence|done|].
    exists s2. split; [eauto using leads_trans|]. split; [congruence|done].
Qed.

Lemma exec_drain e s :
  Inv s → coord s = CDrain → inflight (procs s) = 0%nat →
  exec (Coordinator e) s = Some (set_coord CConfirm s).
Proof.
  intros [_ _ _ Hwg _ _ _] Hc Hn. unfold exec. rewrite Hc. simpl.
  unfold startServer_step. rewrite Hc. unfold perform, wg_Wait.
  case_decide; [|lia]. simpl. by rewrite set_world_id.
Qed.

(** A step of [startServer] that cannot block, with the state it leads
    to. *)
Lemma coordinator_leads (e : Env) s :
  Reachable s → waits (coord s) = false →
  ∃ s1, exec (Coordinator e) s = Some s1
        ∧ Reachable s1
        ∧ coord s1 = next_pc (coord s)
        ∧ procs s1 = procs s.
Proof.
  intros Hreach Hw.
  destruct (coordinator_step_Some e s) as (w' & E);
    [by apply Reachable_Inv|done|].
  eexists. split; [exact E|]. split; [eauto using Reachable_step|done].
Qed.

(** From a state in which no goroutine handles a stream, [startServer]
    can go to its return. *)
Lemma exit_when_idle (e : Env) s :
  Reachable s → consumed (coord s) = true → coord s ≠ CExited →
  inflight (procs s) = 0%nat →
  ∃ s', leads e s s' ∧ coord s' = CExited ∧ inflight (procs s') = 0%nat.
Proof.
  assert (Hstop : ∀ s, Reachable s → coord s = CStop →
            inflight (procs s) = 0%nat →
            ∃ s', leads e s s' ∧ coord s' = CExited
                  ∧ inflight (procs s') = 0%nat).
  { intros s0 Hr Hc Hn.
    destruct (coordinator_leads e s0 Hr) as (s1 & E & Hr1 & Hc1 & Hp1);
      [by rewrite Hc|].
    exists s1. split; [eapply leads_step; eauto using leads_refl; done|].
    split; [by rewrite Hc1, Hc|by rewrite Hp1]. }
  assert (Hconfirm : ∀ s, Reachable s → coord s = CConfirm →
            inflight (procs s) = 0%nat →
            ∃ s', leads e s s' ∧ coord s' = CExited
                  ∧ inflight (procs s') = 0%nat).
  { intros s0 Hr Hc Hn.
    destruct (coordinator_leads e s0 Hr) as (s1 & E & Hr1 & Hc1 & Hp1);
      [by rewrite Hc|].
    destruct (Hstop s1 Hr1) as (s' & H & Hc' & Hn');
      [by rewrite Hc1, Hc|by rewrite Hp1|].
    exists s'. split; [eapply leads_step; eauto; done|done]. }
  assert (Hdrain : ∀ s, Reachable s → coord s = CDrain →
            inflight (procs s) = 0%nat →
            ∃ s', leads e s s' ∧ coord s' = CExited
                  ∧ inflight (procs s') = 0%nat).
  { intros s0 Hr Hc Hn.
    pose proof (exec_drain e s0 (Reachable_Inv _ Hr) Hc Hn) as E.
    destruct (Hconfirm _ (Reachable_step _ _ _ Hr E)) as (s' & H & Hc' & Hn');
      [done|done|].
    exists s'. split; [eapply leads_step; eauto; done|done]. }
  assert (Hcount : ∀ s, Reachable s → coord s = CCount →
            inflight (procs s) = 0%nat →
            ∃ s', leads e s s' ∧ coord s' = CExited
                  ∧ inflight (procs s') = 0%nat).
  { intros s0 Hr Hc Hn.
    destruct (coordinator_leads e s0 Hr) as (s1 & E & Hr1 & Hc1 & Hp1);
      [by rewrite Hc|].
    destruct (Hdrain s1 Hr1) as (s' & H & Hc' & Hn');
      [by rewrite Hc1, Hc|by rewrite Hp1|].
    exists s'. split; [eapply leads_step; eauto; done|done]. }
  intros Hreach Hcons Hne Hn.
  destruct (coord s) eqn:Ec; try done; eauto.
  destruct (coordinator_leads e s Hreach) as (s1 & E & Hr1 & Hc1 & Hp1);
    [by rewrite Ec|].
  destruct (Hcount s1 Hr1) as (s' & H & Hc' & Hn');
    [by rewrite Hc1, Ec|by rewrite Hp1|].
  exists s'. split; [eapply leads_step; eauto; done|done].
Qed.

Lemma exec_usage_fire d s :
  coord s ≠ CExited → usageTimer s = USelect d → d ≤ now s →
  exec (UsageTimer CaseTimer) s = Some (set_usageTimer USend s).
Proof.
  intros Hne Eu Hd. unfold exec. destruct (coord s); try done; simpl;
    unfold startUsageTimer_step; rewrite Eu; by case_decide.
Qed.

Lemma exec_usage_send c s :
  Inv s → coord s = CAwait → usageTimer s = USend →
  ∃ w', exec (UsageTimer c) s =
          Some (set_usageTimer UDone
                  (set_world w' (set_coord (CRequest ShutdownReason.Usage) s))).
Proof.
  intros [_ Hs _ _ _ _ _] Ec Eu. unfold exec. rewrite Ec. simpl.
  unfold startUsageTimer_step. rewrite Eu. unfold send_shutdown.
  rewrite Hs, Ec. simpl. eauto.
Qed.

(** The receive of line 271 can always be served: the timer of
    [startUsageTimer] can fire and deliver its reason. *)
Lemma await_to_request (e : Env) s :
  Reachable s → coord s = CAwait →
  ∃ s', leads e s s' ∧ coord s' = CRequest ShutdownReason.Usage.
Proof.
  intros Hreach Ec.
  pose proof (Reachable_Inv s Hreach) as HI.
  destruct (usageTimer s) as [d| |] eqn:Eu.
  - set (d0 := Z.max 1 (d - now s)).
    set (s1 := set_now (now s + d0) s).
    assert (E1 : exec (Tick d0) s = Some s1)
      by (apply exec_Tick; [by rewrite Ec|lia]).
    assert (E2 : exec (UsageTimer CaseTimer) s1
                 = Some (set_usageTimer USend s1))
      by (apply (exec_usage_fire d); [simpl; by rewrite Ec|done|simpl; lia]).
    assert (Hreach2 : Reachable (set_usageTimer USend s1))
      by eauto using Reachable_step.
    destruct (exec_usage_send CaseTimer (set_usageTimer USend s1))
      as (w' & E3); [by apply Reachable_Inv|done|done|].
    eexists. split.
    { eapply leads_step; [exact E1|done|].
      eapply leads_step; [exact E2|done|].
      eapply leads_step; [exact E3|done|]. apply leads_refl. }
    reflexivity.
  - destruct (exec_usage_send CaseTimer s) as (w' & E); [done..|].
    eexists. split.
    { eapply leads_step; [exact E|done|]. apply leads_refl. }
    reflexivity.
  - destruct HI as [_ _ _ _ _ Hd _]. rewrite Ec in Hd. simpl in Hd.
    unfold delivered in Hd. rewrite Eu in Hd.
    by destruct (lifetimeTimer s).
Qed.

Lemma exit_reachable_from (e : Env) s :
  Reachable s → coord s ≠ CExited →
  ∃ s', leads e s s' ∧ coord s' = CExited ∧ inflight (procs s') = 0%nat.
Proof.
  assert (Hcons : ∀ s, Reachable s → consumed (coord s) = true →
            coord s ≠ CExited →
            ∃ s', leads e s s' ∧ coord s' = CExited
                  ∧ inflight (procs s') = 0%nat).
  { intros s0 Hr Hc Hne.
    destruct (finish_all e _ s0 Hr Hne eq_refl) as (s1 & H1 & Hc1 & Hn1).
    destruct (exit_when_idle e s1) as (s2 & H2 & Hc2 & Hn2);
      [eauto using leads_Reachable|congruence|congruence|done|].
    exists s2. split; [eauto using leads_trans|done]. }
  assert (Hawait : ∀ s, Reachable s → coord s = CAwait →
            ∃ s', leads e s s' ∧ coord s' = CExited
                  ∧ inflight (procs s') = 0%nat).
  { intros s0 Hr Hc.
    destruct (await_to_request e s0 Hr Hc) as (s1 & H1 & Hc1).
    destruct (Hcons s1) as (s2 & H2 & Hc2 & Hn2);
      [eauto using leads_Reachable|by rewrite Hc1|by rewrite Hc1|].
    exists s2. split; [eauto using leads_trans|done]. }
  intros Hreach Hne.
  destruct (coord s) eqn:Ec; try done;
    try (apply Hcons; [done|by rewrite Ec|by rewrite Ec]); [|by apply Hawait].
  destruct (coordinator_leads e s Hreach) as (s1 & E & Hr1 & Hc1 & _);
    [by rewrite Ec|].
  destruct (Hawait s1 Hr1) as (s' & H & Hc' & Hn'); [by rewrite Hc1, Ec|].
  exists s'. split; [eapply leads_step; eauto; done|done].
Qed.

(** X13: the process can come to its end whatever the environment
    answers. Take any answers [e] of the control plane, of [net.Dial] and
    of [server.Shutdown], and any state the process can reach in which
    [startServer] has not returned and does not stand at the wait of line
    283 (what [sync.WaitGroup] does when an [Add] meets a [Wait] that is
    being released is not modelled). There is a run from that state in
    which no request arrives, every call gets the answers [e], and at the
    end of which [startServer] has returned with status [ShuttingDown],
    one reason has been delivered and no goroutine that handles a stream
    is left. *)
Theorem exit_always_reachable (e : Env) s :
  Reachable s → coord s ≠ CExited → coord s ≠ CDrain →
  ∃ acts s', run acts s = Some s'
             ∧ Forall (uses e) acts
             ∧ coord s' = CExited
             ∧ status (world s') = InstanceStatus.ShuttingDown
             ∧ length (delivered s') = 1%nat
             ∧ inflight (procs s') = 0%nat.
Proof.
  intros Hreach Hne _.
  destruct (exit_reachable_from e s Hreach Hne)
    as (s' & (acts & Hrun & Hacts) & Hc & Hn).
  exists acts, s'. split; [done|]. split; [done|]. split; [done|].
  assert (Hreach' : Reachable s') by eauto using run_Reachable.
  pose proof (Reachable_Inv s' Hreach') as [_ _ _ _ _ Hd _].
  apply Reachable_Inv2 in Hreach' as [-> _ _ _ _].
  rewrite Hc in *. done.
Qed.

Lemma exit_always_reachable_witness :
  Reachable state_lifetime_loses
  ∧ coord state_lifetime_loses = CRequest ShutdownReason.Usage
  ∧ ∃ acts s', run acts state_lifetime_loses = Some s'
               ∧ Forall (uses failEnv) acts
               ∧ coord s' = CExited
               ∧ status (world s') = InstanceStatus.ShuttingDown
               ∧ length (delivered s') = 1%nat
               ∧ inflight (procs s') = 0%nat.
Proof.
  assert (Hreach : Reachable state_lifetime_loses).
  { apply (run_Reachable acts_lifetime_loses initialState);
      [apply Reachable_init | vm_compute; reflexivity]. }
  split; [exact Hreach|]. split; [vm_compute; reflexivity|].
  apply (exit_always_reachable failEnv state_lifetime_loses Hreach);
    vm_compute; discriminate.
Defined.

(** X14: how registration and completion compose. When a stream has been
    registered and its goroutine has run to its end, the registry is the
    one before the request with [conn] put under the id and the key of the
    remote address of [conn] deleted, and the wait group is back at its
    value. The entry of the stream is gone exactly when its id is the
    remote address of its connection. *)
Theorem register_then_complete rt UUID URL conn net_Dial rw w :
  connectionsMux w = false → 0 ≤ wg w → net_Dial URL = Dialed conn →
  ∃ r w1 w2,
    handleNewStream (Decoded UUID URL) net_Dial rw w = Done r w1
    ∧ handleNewStream_func1 rt UUID conn w1 = Done tt w2
    ∧ connections w2 =
        delete (RemoteAddr conn) (<[UUID := conn]> (connections w))
    ∧ wg w2 = wg w
    ∧ connections w2 !! UUID =
        if decide (UUID = RemoteAddr conn) then None else Some conn.
Proof.
  intros Hfree Hwg Hdial.
  destruct (completion_deletes_remote_address rt UUID URL conn net_Dial rw w)
    as (r & w1 & w2 & H1 & H2 & Hconn & Hw); [done..|].
  exists r, w1, w2. repeat (split; [done|]). rewrite Hconn.
  case_decide as Heq.
  - rewrite Heq. apply lookup_delete_eq.
  - rewrite lookup_delete_ne by done. apply lookup_insert_eq.
Qed.

Lemma register_then_complete_witness :
  connectionsMux world_with_a = false
  ∧ 0 ≤ wg world_with_a
  ∧ ∃ r w1 w2,
      handleNewStream (Decoded "10.0.0.4:1935" "10.0.0.4:1935")
        (λ _, Dialed conn_b) [] world_with_a = Done r w1
      ∧ handleNewStream_func1 (Response 200 "200 OK") "10.0.0.4:1935"
          conn_b w1 = Done tt w2
      ∧ connections w2 !! "10.0.0.4:1935" = None
      ∧ connections w2 !! "a" = Some conn_a
      ∧ wg w2 = wg world_with_a.
Proof.
  split; [reflexivity|]. split; [done|].
  destruct (register_then_complete (Response 200 "200 OK") "10.0.0.4:1935"
              "10.0.0.4:1935" conn_b (λ _, Dialed conn_b) [] world_with_a)
    as (r & w1 & w2 & H1 & H2 & Hconn & Hw & Hid); [reflexivity|done|done|].
  exists r, w1, w2. split; [exact H1|]. split; [exact H2|].
  split; [exact Hid|]. split; [|exact Hw].
  rewrite Hconn. reflexivity.
Defined.

(** X15: nothing is ever sent on [connectionChan]. In every state the
    process can reach, the channel is empty; as long as the timer of
    [startUsageTimer] has not fired it is due [usageTimeoutMinutes] after
    the start, and the case of the [select] that would reset it cannot be
    taken. *)
Theorem connectionChan_never_used s :
  Reachable s →
  buf (connectionChan s) = []
  ∧ ∀ d, usageTimer s = USelect d →
         d = usageTimeoutMinutes * time.Minute
         ∧ exec (UsageTimer CaseConnection) s = None.
Proof.
  intros Hreach. split.
  - destruct (Reachable_Inv s Hreach) as [_ _ Hc _ _ _ _]. by rewrite Hc.
  - intros d Eu. by apply usage_timer_never_reset.
Qed.

Lemma connectionChan_never_used_witness :
  Reachable (default initialState (run acts_register_at_10 initialState))
  ∧ usageTimer (default initialState (run acts_register_at_10 initialState))
    = USelect (15 * time.Minute)
  ∧ buf (connectionChan
           (default initialState (run acts_register_at_10 initialState))) = []
  ∧ exec (UsageTimer CaseConnection)
      (default initialState (run acts_register_at_10 initialState)) = None.
Proof.
  assert (Hreach : Reachable
            (default initialState (run acts_register_at_10 initialState))).
  { apply (run_Reachable acts_register_at_10 initialState);
      [apply Reachable_init | vm_compute; reflexivity]. }
  destruct (connectionChan_never_used _ Hreach) as [Hbuf Hsel].
  split; [exact Hreach|]. split; [vm_compute; reflexivity|].
  split; [exact Hbuf|].
  exact (proj2 (Hsel (15 * time.Minute) ltac:(vm_compute; reflexivity))).
Defined.

(** X16: the counter of the wait group counts the goroutines that handle
    a stream. In every state the process can reach it is the number of
    goroutines started by [handleNewStream] that are between their
    [wg.Add(1)] and their deferred [wg.Done()], so it is never negative
    and [wg.Done()] never panics. *)
Theorem wait_group_counts_stream_goroutines s :
  Reachable s →
  wg (world s) = Z.of_nat (inflight (procs s)) ∧ 0 ≤ wg (world s).
Proof.
  intros [_ _ _ Hwg _ _ _]%Reachable_Inv. split; [done|lia].
Qed.

Lemma wait_group_counts_stream_goroutines_witness :
  Reachable state_drain_busy
  ∧ inflight (procs state_drain_busy) = 1%nat
  ∧ wg (world state_drain_busy) = 1.
Proof.
  assert (Hreach : Reachable state_drain_busy).
  { apply (run_Reachable acts_drain_busy initialState);
      [apply Reachable_init | vm_compute; reflexivity]. }
  split; [exact Hreach|]. split; [vm_compute; reflexivity|].
  rewrite (proj1 (wait_group_counts_stream_goroutines _ Hreach)).
  vm_compute; reflexivity.
Defined.
